(** * Fire-Simulation: a shallow embedding of the particle core

    The repository holds two flame simulations driven by one energy slider:
    a 2D canvas variant ([V01]: [createParticle.js], [colors.js] and the
    [useFireAnimation] hook with its [gaussianRandom] helper) and a 3D point
    cloud ([V01_3D]: [FireParticles.jsx], plus a 3D port of the particle
    factory).  This file embeds the spawn policy, the particle factories, the
    colour mappers and the per-frame step of both variants, and proves the
    properties the specification states about them.

    Conventions of the embedding.
    - A JavaScript number is a real number ([R]).  IEEE-754 rounding, NaN and
      the infinities are not represented; the one division of the 2D step
      whose divisor can be 0 on valid input is spelled out in
      [lifeFractionOf].
    - Values that the source produces with [Math.floor] and then uses as
      counts or 8-bit channels are integers ([Z]).
    - [Math.random()] reads the next cell of a tape of draws; code that draws
      is written in the state monad [M] over that tape, in the order in which
      the source evaluates its calls.
    - An object mutated in place by a [filter] callback is returned by the
      callback's model together with its verdict. *)

From Stdlib Require Import Reals Lra Lia List ZArith Bool.
Import ListNotations.
Open Scope R_scope.

(** ** JavaScript numeric primitives *)

Module JS.

Definition ltb (x y : R) : bool := if Rlt_dec x y then true else false.
Definition leb (x y : R) : bool := if Rle_dec x y then true else false.

Definition Math_max (a b : R) : R := Rmax a b.
Definition Math_min (a b : R) : R := Rmin a b.
Definition Math_abs (a : R) : R := Rabs a.
Definition Math_floor (x : R) : Z := Zfloor x.
Definition Math_sqrt (x : R) : R := sqrt x.
Definition Math_log (x : R) : R := ln x.
Definition Math_cos (x : R) : R := cos x.
Definition Math_sin (x : R) : R := sin x.
Definition Math_PI : R := PI.

(** [Math.pow(x, y)].  A positive base is [exp (y * ln x)]; base 0 gives 0
    for a non-zero exponent and 1 for exponent 0.  For a negative base the
    model returns [|x|] to the [y], which is the JavaScript value for the
    even exponent [2.0], the only integer exponent in the source (for a
    fractional exponent JavaScript gives NaN). *)
Definition Math_pow (x y : R) : R :=
  if Rlt_dec 0 x then Rpower x y
  else if Req_dec_T x 0 then (if Req_dec_T y 0 then 1 else 0)
  else Rpower (- x) y.

End JS.

Import JS.

Declare Scope js_scope.
Delimit Scope js_scope with js.
Notation "x <? y" := (ltb x y) (at level 70, no associativity) : js_scope.
Notation "x >? y" := (ltb y x) (at level 70, no associativity) : js_scope.
Notation "x <=? y" := (leb x y) (at level 70, no associativity) : js_scope.

(** ** The random source *)

Module Rng.

(** The draws [Math.random()] will return, and how many were consumed. *)
Record t := mk { tape : nat -> R; cursor : nat }.

(** [Math.random()] returns a number in [0, 1). *)
Definition uniform01 (draws : nat -> R) : Prop := forall n, 0 <= draws n < 1.

Definition M (A : Type) : Type := t -> A * t.

Definition ret {A} (a : A) : M A := fun s => (a, s).

Definition bind {A B} (c : M A) (k : A -> M B) : M B :=
  fun s => let (a, s') := c s in k a s'.

Definition Math_random : M R :=
  fun s => (tape s (cursor s), mk (tape s) (S (cursor s))).

(** A computation that only advances the cursor. *)
Definition keeps_tape {A} (c : M A) : Prop :=
  forall s, tape (snd (c s)) = tape s.

End Rng.

Import Rng.

Notation "x <- c ;; k" := (bind c (fun x => k))
  (at level 61, c at next level, right associativity).

(** ** lib/gaussian: the Box-Muller sampler *)

Module Gaussian.

Definition gaussianRandom (mean stdDev : R) : M R :=
  r1 <- Math_random ;;
  let u1 := Math_max r1 1e-12 in
  u2 <- Math_random ;;
  let z0 := Math_sqrt (-2.0 * Math_log u1) * Math_cos (2.0 * Math_PI * u2) in
  ret (z0 * stdDev + mean).

End Gaussian.

(** ** The 2D variant (V01) *)

Module Fire2D.

Import Gaussian.

Record FireParticle := mkParticle {
  positionX : R;
  positionY : R;
  velocityX : R;
  velocityY : R;
  initialEnergy : R;
  remainingEnergy : R;
  lifeFraction : R;
  basePixelRadius : R;
  normalizedDistanceFromCenter : R;
  receivedBurstEnergy : bool
}.

(** lib/createParticle.js *)
Definition createFireParticle (canvasWidthPx canvasHeightPx energyPercent : R)
    (gaussian : R -> R -> M R) : M FireParticle :=
  let burnerCenterX := canvasWidthPx / 2 in
  let burnerBaseY := canvasHeightPx - 20 in
  let energyScalar01 := energyPercent / 100 in
  let spawnSpreadPixels := 40 - (energyScalar01 * 25) in
  spawnX <- gaussian burnerCenterX (Math_max spawnSpreadPixels 1e-3) ;;
  rY <- Math_random ;;
  let spawnY := burnerBaseY + (rY - 0.5) * 5 in
  let distanceFromCenterPx := Math_abs (spawnX - burnerCenterX) in
  let normalizedDistanceFromCenter :=
    distanceFromCenterPx / Math_max spawnSpreadPixels 1e-3 in
  rBurst <- Math_random ;;
  burstEnergyBonus <-
    (if (rBurst <? 0.15)%js
     then rAmount <- Math_random ;; ret (0.3 + rAmount * 0.4)
     else ret 0) ;;
  let receivedBurstEnergy := (burstEnergyBonus >? 0)%js in
  let centerEnergyBias :=
    Math_max 0 (1 - normalizedDistanceFromCenter * 0.4 + burstEnergyBonus) in
  let baseEnergyUnits := 40 + energyScalar01 * 90 in
  let particleEnergyUnits := baseEnergyUnits * centerEnergyBias in
  rVar <- Math_random ;;
  let randomEnergyVariation := 0.7 + rVar * 0.6 in
  let initialEnergy := particleEnergyUnits * randomEnergyVariation in
  let initialVelocityY := -1.5 - energyScalar01 * 4.5 in
  let lateralSpreadScale := (1 - energyScalar01) * 0.8 in
  rKick <- Math_random ;;
  rareLateralKick <-
    (if (rKick <? 0.08)%js
     then rAmount <- Math_random ;; ret ((rAmount - 0.5) * 1.2)
     else ret 0) ;;
  rVx <- Math_random ;;
  let initialVelocityX := (rVx - 0.5) * lateralSpreadScale + rareLateralKick in
  rRadius <- Math_random ;;
  ret {| positionX := spawnX;
         positionY := spawnY;
         velocityX := initialVelocityX;
         velocityY := initialVelocityY;
         initialEnergy := initialEnergy;
         remainingEnergy := initialEnergy;
         lifeFraction := 1.0;
         basePixelRadius := 4 + rRadius * 3;
         normalizedDistanceFromCenter := normalizedDistanceFromCenter;
         receivedBurstEnergy := receivedBurstEnergy |}.

(** lib/colors.js.  The source formats the result as the CSS string
    [rgba(r, g, b, alpha)]; the model keeps its four numbers. *)
Record RGBA := mkRGBA { red : Z; green : Z; blue : Z; alpha : R }.

Definition computeParticleColorRGBA (particle : FireParticle)
    (energyPercent : R) : RGBA :=
  let energyScalar01 := energyPercent / 100 in
  let life := lifeFraction particle in
  let '(r, g, b) :=
    if (energyScalar01 >? 0.7)%js then
      let t := (energyScalar01 - 0.7) / 0.3 in
      (Math_floor (120 + t * 135), Math_floor (180 + t * 75), Math_floor 255)
    else if (energyScalar01 >? 0.4)%js then
      let t := (energyScalar01 - 0.4) / 0.3 in
      (Math_floor 255, Math_floor (220 - t * 60), Math_floor (30 + t * 170))
    else
      let t := energyScalar01 / 0.4 in
      (Math_floor (220 + t * 35), Math_floor (40 + t * 180),
       Math_floor (10 + t * 20)) in
  let alpha := Math_pow life 0.7 * 0.9 in
  mkRGBA r g b alpha.

(** [Math.max(0, p.remainingEnergy / p.initialEnergy)].  With
    [initialEnergy = 0] and a negative [remainingEnergy] JavaScript computes
    [Math.max(0, -Infinity) = 0].  (With [initialEnergy = 0] and
    [remainingEnergy >= 0] the JavaScript value is Infinity or NaN, which no
    real number stands for; the energy loss of a frame is positive, so the
    step does not get there on a particle of the factory.) *)
Definition lifeFractionOf (remaining initial : R) : R :=
  if Req_dec_T initial 0 then 0 else Math_max 0 (remaining / initial).

(** hooks/useFireAnimations: the spawn policy of [tick]. *)
Definition spawnPerFrame (energyPercent : R) : Z :=
  (5 + Math_floor (energyPercent / 10))%Z.

Definition particleCountCap (energyPercent : R) : Z :=
  (400 + Math_floor (energyPercent * 3))%Z.

(** What the [filter] callback hands to the canvas for a surviving particle:
    the centre and radius of its gradient disc and the base colour.  (The
    bloom and glow discs drawn on top reuse the same centre and colour.) *)
Record Draw := mkDraw {
  drawX : R; drawY : R; drawRadius : R; drawColor : RGBA
}.

(** The energy lost by a particle in one frame (step 3.e). *)
Definition actualEnergyLoss (energyPercent : R) (p : FireParticle) : R :=
  let energyScalar01 := energyPercent / 100 in
  let atEdgePenalty :=
    if receivedBurstEnergy p then 0
    else normalizedDistanceFromCenter p * 0.3 in
  let baseEnergyLossPerFrame := 0.8 + (1 - energyScalar01) * 1.2 in
  baseEnergyLossPerFrame * (1 + atEdgePenalty).

(** Steps 3.a to 3.f of the callback: the in-place update of one particle. *)
Definition updateParticle (canvasWidthPx energyPercent : R) (frameIndex : nat)
    (p : FireParticle) : M FireParticle :=
  let energyScalar01 := energyPercent / 100 in
  let buoyancyUpdraft := 0.09 * energyScalar01 in
  let velocityY1 := velocityY p - buoyancyUpdraft in
  let turbulenceNoiseStrength := (1 - energyScalar01) * 0.15 in
  let deterministicNoise :=
    Math_sin (INR frameIndex * 0.04 + positionX p * 0.02) in
  let lateralNoise := deterministicNoise * turbulenceNoiseStrength in
  rSpike <- Math_random ;;
  rareLateralSpike <-
    (if (rSpike <? 0.02)%js
     then rAmount <- Math_random ;; ret ((rAmount - 0.5) * 0.4)
     else ret 0) ;;
  rJitter <- Math_random ;;
  let velocityX1 :=
    velocityX p
    + (lateralNoise + (rJitter - 0.5) * turbulenceNoiseStrength
       + rareLateralSpike) in
  let canvasCenterX := canvasWidthPx / 2 in
  let dxFromCenter := positionX p - canvasCenterX in
  let recirculationStrength := if receivedBurstEnergy p then 0.5 else 1.0 in
  let centripetalForce :=
    - dxFromCenter * 0.002 * (1 - energyScalar01 * 0.5)
    * recirculationStrength in
  let velocityX2 := velocityX1 + centripetalForce in
  let positionX1 := positionX p + velocityX2 in
  let positionY1 := positionY p + velocityY1 in
  let remainingEnergy1 :=
    remainingEnergy p - actualEnergyLoss energyPercent p in
  let lifeFraction1 := lifeFractionOf remainingEnergy1 (initialEnergy p) in
  let dragFactorX := 0.94 + energyScalar01 * 0.04 in
  let dragFactorY := 0.96 + energyScalar01 * 0.02 in
  ret {| positionX := positionX1;
         positionY := positionY1;
         velocityX := velocityX2 * dragFactorX;
         velocityY := velocityY1 * dragFactorY;
         initialEnergy := initialEnergy p;
         remainingEnergy := remainingEnergy1;
         lifeFraction := lifeFraction1;
         basePixelRadius := basePixelRadius p;
         normalizedDistanceFromCenter := normalizedDistanceFromCenter p;
         receivedBurstEnergy := receivedBurstEnergy p |}.

(** Step 3.g: the test that decides whether the particle is kept and drawn. *)
Definition onScreen (canvasWidthPx : R) (p : FireParticle) : bool :=
  (remainingEnergy p >? 0)%js
  && (positionY p >? -30)%js
  && (positionX p >? -30)%js
  && (positionX p <? canvasWidthPx + 30)%js.

Definition drawParticle (energyPercent : R) (p : FireParticle) : Draw :=
  let pixelRadius := basePixelRadius p * (0.5 + lifeFraction p * 0.5) in
  mkDraw (positionX p) (positionY p) pixelRadius
         (computeParticleColorRGBA p energyPercent).

(** The whole callback: the updated particle, and the draw call when the
    callback returns [true] ([None] when it returns [false]). *)
Definition stepParticle (canvasWidthPx energyPercent : R) (frameIndex : nat)
    (p : FireParticle) : M (FireParticle * option Draw) :=
  p' <- updateParticle canvasWidthPx energyPercent frameIndex p ;;
  if onScreen canvasWidthPx p'
  then ret (p', Some (drawParticle energyPercent p'))
  else ret (p', None).

(** [Array.prototype.filter] with a callback that mutates and draws: the
    kept particles, in order, and the draw calls issued. *)
Fixpoint filterParticles (f : FireParticle -> M (FireParticle * option Draw))
    (ps : list FireParticle) : M (list FireParticle * list Draw) :=
  match ps with
  | [] => ret ([], [])
  | p :: rest =>
      r <- f p ;;
      kd <- filterParticles f rest ;;
      match snd r with
      | Some d => ret (fst r :: fst kd, d :: snd kd)
      | None => ret kd
      end
  end.

(** The spawn loop: [i] iterations are left to run. *)
Fixpoint spawnLoop (i : nat) (canvasWidthPx canvasHeightPx energyPercent : R)
    (liveParticles : list FireParticle) : M (list FireParticle) :=
  match i with
  | O => ret liveParticles
  | S i' =>
      live' <-
        (if (Z.of_nat (length liveParticles)
             <? particleCountCap energyPercent)%Z
         then p <- createFireParticle canvasWidthPx canvasHeightPx
                     energyPercent gaussianRandom ;;
              ret (liveParticles ++ [p])
         else ret liveParticles) ;;
      spawnLoop i' canvasWidthPx canvasHeightPx energyPercent live'
  end.

(** The state an effect instance keeps between frames. *)
Record Sim := mkSim { liveParticles : list FireParticle; frameIndex : nat }.

(** A fresh effect instance ([let liveParticles = []], [let frameIndex = 0]).
    The effect depends on [energyPercent]: moving the slider tears the
    instance down and starts a new one, so one collection only ever sees one
    energy. *)
Definition initialSim : Sim := mkSim [] 0.

Definition spawnPhase (canvasWidthPx canvasHeightPx energyPercent : R)
    (s : Sim) : M (list FireParticle) :=
  spawnLoop (Z.to_nat (spawnPerFrame energyPercent))
    canvasWidthPx canvasHeightPx energyPercent (liveParticles s).

Definition updatePhase (canvasWidthPx energyPercent : R) (frame : nat)
    (ps : list FireParticle) : M (list FireParticle * list Draw) :=
  filterParticles (stepParticle canvasWidthPx energyPercent frame) ps.

(** One animation frame. *)
Definition tick (canvasWidthPx canvasHeightPx energyPercent : R) (s : Sim)
    : M (Sim * list Draw) :=
  spawned <- spawnPhase canvasWidthPx canvasHeightPx energyPercent s ;;
  kd <- updatePhase canvasWidthPx energyPercent (frameIndex s) spawned ;;
  ret (mkSim (fst kd) (S (frameIndex s)), snd kd).

(** [n] frames in a row. *)
Fixpoint ticks (n : nat) (canvasWidthPx canvasHeightPx energyPercent : R)
    (s : Sim) : M Sim :=
  match n with
  | O => ret s
  | S n' =>
      s' <- ticks n' canvasWidthPx canvasHeightPx energyPercent s ;;
      r <- tick canvasWidthPx canvasHeightPx energyPercent s' ;;
      ret (fst r)
  end.

(** The callback's update applied to one particle over [n] consecutive
    frames, the first of which has index [frame].  (Each frame subtracts the
    energy loss exactly; the rounding of the source's subtraction is at most
    half a unit in the last place of the remaining energy, below 3e-14 for
    an energy of the factory.) *)
Fixpoint updateN (n : nat) (canvasWidthPx energyPercent : R) (frame : nat)
    (p : FireParticle) : M FireParticle :=
  match n with
  | O => ret p
  | S n' =>
      p' <- updateParticle canvasWidthPx energyPercent frame p ;;
      updateN n' canvasWidthPx energyPercent (S frame) p'
  end.

(** A position that fails the bounds part of [onScreen]. *)
Definition outsideMargin (canvasWidthPx : R) (p : FireParticle) : Prop :=
  positionY p <= -30 \/ positionX p <= -30
  \/ canvasWidthPx + 30 <= positionX p.

(** The invariant the data model states for a particle of the collection. *)
Definition liveInvariant (p : FireParticle) : Prop :=
  0 < remainingEnergy p /\ 0 <= lifeFraction p <= 1.

(** Its weakening that also covers a particle the factory has just made. *)
Definition spawnedInvariant (p : FireParticle) : Prop :=
  0 <= remainingEnergy p /\ 0 <= lifeFraction p <= 1.

(** What the factory establishes and the update keeps: the remaining energy
    never exceeds the initial energy, and the spawn distance is not
    negative. *)
Definition energyBounded (p : FireParticle) : Prop :=
  remainingEnergy p <= initialEnergy p
  /\ 0 <= normalizedDistanceFromCenter p.

(** The particle the factory makes at slider value 100 on an 800 x 600
    canvas when every draw is 0.5: plain, at rest sideways, at most two
    spreads left of the centre line, with at least 26 units of energy. *)
Definition halfTapeParticle (p : FireParticle) : Prop :=
  370 <= positionX p <= 400 /\ positionY p = 580
  /\ velocityX p = 0 /\ velocityY p = -6
  /\ receivedBurstEnergy p = false
  /\ 0 <= normalizedDistanceFromCenter p <= 2
  /\ 26 <= remainingEnergy p.


(** How many particles the [filter] of the frame started in [s] drops. *)
Definition culledInTick (canvasWidthPx canvasHeightPx energyPercent : R)
    (s : Sim) : M nat :=
  spawned <- spawnPhase canvasWidthPx canvasHeightPx energyPercent s ;;
  kd <- updatePhase canvasWidthPx energyPercent (frameIndex s) spawned ;;
  ret (length spawned - length (fst kd))%nat.

(** How many particles the first [n] frames from [s] drop in total. *)
Fixpoint deaths (n : nat) (canvasWidthPx canvasHeightPx energyPercent : R)
    (s : Sim) (rng : Rng.t) : nat :=
  match n with
  | O => O
  | S n' =>
      let (s', rng') :=
        ticks n' canvasWidthPx canvasHeightPx energyPercent s rng in
      (deaths n' canvasWidthPx canvasHeightPx energyPercent s rng
       + fst (culledInTick canvasWidthPx canvasHeightPx energyPercent
                s' rng'))%nat
  end.

End Fire2D.

(** ** The 3D variant: the library files (V01_3D/src/lib) *)

Module Fire3DLib.

Record FireParticle := mkParticle {
  positionX : R;
  positionY : R;
  positionZ : R;
  velocityX : R;
  velocityY : R;
  velocityZ : R;
  initialEnergy : R;
  remainingEnergy : R;
  lifeFraction : R;
  basePixelRadius : R;
  normalizedDistanceFromCenter : R;
  receivedBurstEnergy : bool
}.

(** The 3D port of the particle factory. *)
Definition createFireParticle (energyPercent : R) (gaussian : R -> R -> M R)
    : M FireParticle :=
  let burnerCenterX := 0 in
  let burnerBaseY := 0 in
  let energyScalar01 := energyPercent / 100 in
  let spawnSpreadUnits := 1.5 - (energyScalar01 * 1.0) in
  spawnX <- gaussian burnerCenterX (Math_max spawnSpreadUnits 1e-3) ;;
  spawnZ <- gaussian 0 (Math_max spawnSpreadUnits 1e-3) ;;
  rY <- Math_random ;;
  let spawnY := burnerBaseY + (rY - 0.5) * 0.5 in
  let distanceFromCenterPx :=
    Math_sqrt (Math_pow (spawnX - burnerCenterX) 2 + Math_pow spawnZ 2) in
  let normalizedDistanceFromCenter :=
    distanceFromCenterPx / Math_max spawnSpreadUnits 1e-3 in
  rBurst <- Math_random ;;
  burstEnergyBonus <-
    (if (rBurst <? 0.15)%js
     then rAmount <- Math_random ;; ret (0.3 + rAmount * 0.4)
     else ret 0) ;;
  let receivedBurstEnergy := (burstEnergyBonus >? 0)%js in
  let centerEnergyBias :=
    Math_max 0 (1 - normalizedDistanceFromCenter * 0.4 + burstEnergyBonus) in
  let baseEnergyUnits := 40 + energyScalar01 * 90 in
  let particleEnergyUnits := baseEnergyUnits * centerEnergyBias in
  rVar <- Math_random ;;
  let randomEnergyVariation := 0.7 + rVar * 0.6 in
  let initialEnergy := particleEnergyUnits * randomEnergyVariation in
  let initialVelocityY := 1.5 + energyScalar01 * 4.5 in
  let lateralSpreadScale := (1 - energyScalar01) * 0.8 in
  rKick <- Math_random ;;
  rareLateralKick <-
    (if (rKick <? 0.08)%js
     then rAmount <- Math_random ;; ret ((rAmount - 0.5) * 1.2)
     else ret 0) ;;
  rVx <- Math_random ;;
  let initialVelocityX := (rVx - 0.5) * lateralSpreadScale + rareLateralKick in
  rVz <- Math_random ;;
  let initialVelocityZ := (rVz - 0.5) * lateralSpreadScale + rareLateralKick in
  rRadius <- Math_random ;;
  ret {| positionX := spawnX;
         positionY := spawnY;
         positionZ := spawnZ;
         velocityX := initialVelocityX;
         velocityY := initialVelocityY;
         velocityZ := initialVelocityZ;
         initialEnergy := initialEnergy;
         remainingEnergy := initialEnergy;
         lifeFraction := 1.0;
         basePixelRadius := 4 + rRadius * 3;
         normalizedDistanceFromCenter := normalizedDistanceFromCenter;
         receivedBurstEnergy := receivedBurstEnergy |}.

(** lib/colors.js of the 3D variant, part 1: the colour of the life band,
    before the brightness is applied. *)
Definition lifeGradient (life : R) : R * R * R :=
  if (life >? 0.9)%js then
    let t := (life - 0.9) / 0.1 in
    (1.0, 0.8 + t * 0.2, 0.5 + t * 0.5)
  else if (life >? 0.6)%js then
    let t := (life - 0.6) / 0.3 in
    (1.0, 0.5 + t * 0.3, 0.0 + t * 0.5)
  else if (life >? 0.25)%js then
    let t := (life - 0.25) / 0.35 in
    (0.9 + t * 0.1, 0.2 + t * 0.3, 0.0)
  else
    let t := life / 0.25 in
    (0.4 + t * 0.5, 0.1 + t * 0.1, 0.0).

(** Part 2: the fade that scales all three channels.  (With the real [PI]
    the sine is exactly 0 at [life = 0]; [Math.sin(Math.PI)] is about
    1.2e-16, so nothing below relies on the value at 0, only on the clamp
    to [0, 1].) *)
Definition fadeBrightness (life : R) : R :=
  let fade :=
    Math_sin (Math_PI * (1.0 - life)) * 0.5 + Math_pow life 2.0 * 0.5 in
  Math_max 0 (Math_min 1 (fade * 1.5)).

Record RGB := mkRGB { r : R; g : R; b : R }.

Definition computeParticleColor (particle : FireParticle) : RGB :=
  let life := lifeFraction particle in
  let '(r, g, b) := lifeGradient life in
  let brightness := fadeBrightness life in
  mkRGB (r * brightness) (g * brightness) (b * brightness).

End Fire3DLib.

(** ** The 3D variant: components/FireParticles.jsx *)

(** The two three.js value classes the component uses. *)
Module THREE.

Record Vector3 := mkVector3 { x : R; y : R; z : R }.

Definition multiplyScalar (v : Vector3) (s : R) : Vector3 :=
  mkVector3 (x v * s) (y v * s) (z v * s).

Definition addScaledVector (p v : Vector3) (s : R) : Vector3 :=
  mkVector3 (x p + x v * s) (y p + y v * s) (z p + z v * s).

Record Color := mkColor { r : R; g : R; b : R }.

(** [new THREE.Color()] is white. *)
Definition newColor : Color := mkColor 1 1 1.

Definition setRGB (c : Color) (r' g' b' : R) : Color := mkColor r' g' b'.

End THREE.

Module Fire3D.

Import Gaussian.

Definition MAX_PARTICLES : nat := Z.to_nat 6000.

Arguments MAX_PARTICLES : simpl never.

Record Particle := mkParticle {
  position : THREE.Vector3;
  velocity : THREE.Vector3;
  life : R;
  initialLife : R;
  color : THREE.Color
}.

(** The spawn radius of [spawnParticle]; half of it is the deviation of
    the lateral samples, and it divides the distance from the centre.  This
    factory does not floor it. *)
Definition spawnRadius (energyScalar : R) : R := 1.5 - energyScalar * 1.2.

Definition spawnParticle (energyScalar : R) : M Particle :=
  let rampedScalar := Math_pow energyScalar 2.0 in
  let spawnRadius := spawnRadius energyScalar in
  posX <- gaussianRandom 0 (spawnRadius * 0.5) ;;
  posZ <- gaussianRandom 0 (spawnRadius * 0.5) ;;
  posY <- gaussianRandom 0 0.2 ;;
  let pos := THREE.mkVector3 posX posY posZ in
  let upwardVelocity := 2.0 + rampedScalar * 10.0 in
  velX <- gaussianRandom 0 0.5 ;;
  velZ <- gaussianRandom 0 0.5 ;;
  let vel := THREE.mkVector3 velX upwardVelocity velZ in
  let distFromCenter := Math_sqrt (posX * posX + posZ * posZ) / spawnRadius in
  let centerBias := Math_max 0 (1.0 - distFromCenter * 0.5) in
  let baseLife := 1.0 + rampedScalar * 2.5 in
  rLife <- Math_random ;;
  let life := baseLife * centerBias * (0.8 + rLife * 0.4) in
  ret {| position := pos;
         velocity := vel;
         life := life;
         initialLife := life;
         color := THREE.newColor |}.

(** Part 1 of [updateParticleColor]: the life-banded base colour. *)
Definition baseColor (lifeFraction : R) : R * R * R :=
  if (lifeFraction >? 0.9)%js then
    let t := (lifeFraction - 0.9) / 0.1 in
    (1.0, 1.0, 1.0 - (1.0 - 0.8) * t)
  else if (lifeFraction >? 0.7)%js then
    let t := (lifeFraction - 0.7) / 0.2 in
    (1.0, 1.0 - (1.0 - 0.6) * t, 0.8 - 0.8 * t)
  else if (lifeFraction >? 0.4)%js then
    let t := (lifeFraction - 0.4) / 0.3 in
    (1.0, 0.6 - 0.4 * t, 0.0)
  else
    let t := lifeFraction / 0.4 in
    (1.0 - (1.0 - 0.5) * t, 0.2 * t, 0.0).

(** [updateParticleColor] writes into the colour object it is given; the
    model returns that object after the write. *)
Definition updateParticleColor (color : THREE.Color)
    (lifeFraction energyScalar : R) : THREE.Color :=
  let '(r, g, b) := baseColor lifeFraction in
  let rampedScalar := Math_pow energyScalar 1.5 in
  let hotness := rampedScalar * 1.5 * lifeFraction in
  let r := Math_min 1.0 (r + hotness * 0.2) in
  let g := Math_min 1.0 (g + hotness * 0.2) in
  let b := Math_min 1.0 (b + hotness * 1.0) in
  let lifeBrightness := Math_pow lifeFraction 0.5 in
  let energyBrightness := 0.3 + Math_pow energyScalar 1.5 * 0.7 in
  let finalBrightness := lifeBrightness * energyBrightness in
  THREE.setRGB color (r * finalBrightness) (g * finalBrightness)
    (b * finalBrightness).

(** The spawn policy of [useFrame]. *)
Definition spawnRate (energyScalar : R) : Z :=
  (10 + Math_floor (Math_pow energyScalar 2.0 * 200))%Z.

Definition particleCap (energyScalar : R) : Z :=
  (500 + Math_floor (Math_pow energyScalar 2.0 * 5500))%Z.

(** A store into a [Float32Array]: an index past the end is ignored.  (The
    rounding to single precision is not modelled.) *)
Fixpoint store (buf : list R) (i : nat) (v : R) : list R :=
  match buf, i with
  | [], _ => []
  | _ :: rest, O => v :: rest
  | a :: rest, S i' => a :: store rest i' v
  end.

(** [new Float32Array(n)] is zero-filled. *)
Definition newFloat32Array (n : nat) : list R := repeat 0 n.

Fixpoint spawnLoop (i : nat) (energyScalar : R) (liveParticles : list Particle)
    : M (list Particle) :=
  match i with
  | O => ret liveParticles
  | S i' =>
      live' <-
        (if (Z.of_nat (length liveParticles) <? particleCap energyScalar)%Z
            && (length liveParticles <? MAX_PARTICLES)%nat
         then p <- spawnParticle energyScalar ;; ret (liveParticles ++ [p])
         else ret liveParticles) ;;
      spawnLoop i' energyScalar live'
  end.

(** The physics of the [filter] callback (step b) on a particle whose life
    is already decremented. *)
Definition applyPhysics (energyScalar rampedScalar delta elapsedTime : R)
    (p : Particle) : Particle :=
  let v0 := velocity p in
  let vy1 := THREE.y v0 + (0.02 + rampedScalar * 0.1) * delta * 60 in
  let noise :=
    (Math_sin (THREE.y (position p) * 0.5 + elapsedTime)
     + Math_cos (THREE.x (position p) * 0.5 + elapsedTime)) * 0.4 in
  let vx1 := THREE.x v0 + noise * (1.0 - energyScalar) * delta * 2 in
  let vz1 := THREE.z v0 + noise * (1.0 - energyScalar) * delta * 2 in
  let v1 :=
    THREE.multiplyScalar (THREE.mkVector3 vx1 vy1 vz1)
      (1.0 - (0.3 + energyScalar * 0.4) * delta) in
  let pos1 := THREE.addScaledVector (position p) v1 delta in
  {| position := pos1; velocity := v1; life := life p;
     initialLife := initialLife p; color := color p |}.

(** The buffers and the counter the [filter] callback writes to. *)
Record Buffers := mkBuffers {
  positions : list R;
  colors : list R;
  particleIndex : nat
}.

(** The [filter] callback of [useFrame]: [None] when it returns [false]
    (before touching the buffers), otherwise the updated particle and the
    buffers after its six stores.  (A particle spawned with [initialLife = 0]
    has [life <= 0] after the decrement for any [delta >= 0], so the
    division below is not reached with a zero divisor.) *)
Definition stepParticle (energyScalar rampedScalar delta elapsedTime : R)
    (p : Particle) (bufs : Buffers) : option (Particle * Buffers) :=
  let life1 := life p - delta in
  if (life1 <=? 0)%js then None
  else
    let p1 :=
      applyPhysics energyScalar rampedScalar delta elapsedTime
        {| position := position p; velocity := velocity p; life := life1;
           initialLife := initialLife p; color := color p |} in
    let lifeFraction := Math_max 0 (life p1 / initialLife p1) in
    let c := updateParticleColor (color p1) lifeFraction energyScalar in
    let p2 :=
      {| position := position p1; velocity := velocity p1; life := life p1;
         initialLife := initialLife p1; color := c |} in
    let i := particleIndex bufs in
    let positions1 :=
      store (store (store (positions bufs)
        (i * 3) (THREE.x (position p2)))
        (i * 3 + 1) (THREE.y (position p2)))
        (i * 3 + 2) (THREE.z (position p2)) in
    let colors1 :=
      store (store (store (colors bufs)
        (i * 3) (THREE.r c))
        (i * 3 + 1) (THREE.g c))
        (i * 3 + 2) (THREE.b c) in
    Some (p2, mkBuffers positions1 colors1 (S i)).

Fixpoint filterParticles (energyScalar rampedScalar delta elapsedTime : R)
    (ps : list Particle) (bufs : Buffers) : list Particle * Buffers :=
  match ps with
  | [] => ([], bufs)
  | p :: rest =>
      match stepParticle energyScalar rampedScalar delta elapsedTime p bufs with
      | None => filterParticles energyScalar rampedScalar delta elapsedTime
                  rest bufs
      | Some (p', bufs') =>
          let (kept, bufs'') :=
            filterParticles energyScalar rampedScalar delta elapsedTime
              rest bufs' in
          (p' :: kept, bufs'')
      end
  end.

(** What the component keeps between frames: the particle list
    ([liveParticlesRef]), the two buffers made once by [useMemo], and the
    count of the geometry's draw range ([None] until a frame sets it). *)
Record Scene := mkScene {
  liveParticles : list Particle;
  positionBuffer : list R;
  colorBuffer : list R;
  drawRangeCount : option nat
}.

Definition initialScene : Scene :=
  mkScene [] (newFloat32Array (MAX_PARTICLES * 3))
    (newFloat32Array (MAX_PARTICLES * 3)) None.

(** What a frame receives from outside: whether the two refs are attached,
    the slider value, [delta] and [state.clock.elapsedTime]. *)
Record Frame := mkFrame {
  refsReady : bool;
  energyPercent : R;
  delta : R;
  elapsedTime : R
}.

(** The [useFrame] callback. *)
Definition useFrame (f : Frame) (s : Scene) : M Scene :=
  if negb (refsReady f) then ret s
  else
    let energyScalar := energyPercent f / 100.0 in
    let rampedScalar := Math_pow energyScalar 2.0 in
    spawned <-
      spawnLoop (Z.to_nat (spawnRate energyScalar)) energyScalar
        (liveParticles s) ;;
    let (kept, bufs) :=
      filterParticles energyScalar rampedScalar (delta f) (elapsedTime f)
        spawned (mkBuffers (positionBuffer s) (colorBuffer s) 0) in
    ret (mkScene kept (positions bufs) (colors bufs)
           (Some (particleIndex bufs))).

(** The frames of a run, oldest first, from the mounted component. *)
Fixpoint frames (fs : list Frame) (s : Scene) : M Scene :=
  match fs with
  | [] => ret s
  | f :: rest => s' <- useFrame f s ;; frames rest s'
  end.

(** The buffers hold the position and the colour of [q] in the three cells
    of index [k]. *)
Definition writtenAt (pos col : list R) (k : nat) (q : Particle) : Prop :=
  nth_error pos (k * 3) = Some (THREE.x (position q))
  /\ nth_error pos (k * 3 + 1) = Some (THREE.y (position q))
  /\ nth_error pos (k * 3 + 2) = Some (THREE.z (position q))
  /\ nth_error col (k * 3) = Some (THREE.r (color q))
  /\ nth_error col (k * 3 + 1) = Some (THREE.g (color q))
  /\ nth_error col (k * 3 + 2) = Some (THREE.b (color q)).

(** A frame the host can deliver: time does not run backwards and the
    slider is in its range. *)
Definition hostFrame (f : Frame) : Prop :=
  0 <= delta f /\ 10 <= energyPercent f <= 100.

(** What holds of a particle the filter has kept. *)
Definition aliveInvariant (p : Particle) : Prop :=
  0 < life p <= initialLife p
  /\ initialLife p <= 4.2
  /\ 0 <= THREE.r (color p) <= 1
  /\ 0 <= THREE.g (color p) <= 1
  /\ 0 <= THREE.b (color p) <= 1.

(** The bounds the component relies on between frames. *)
Definition sceneInvariant (s : Scene) : Prop :=
  (length (liveParticles s) <= MAX_PARTICLES)%nat
  /\ length (positionBuffer s) = (MAX_PARTICLES * 3)%nat
  /\ length (colorBuffer s) = (MAX_PARTICLES * 3)%nat
  /\ match drawRangeCount s with
     | Some count => (count <= MAX_PARTICLES)%nat
     | None => True
     end.

End Fire3D.

(** * Properties *)

(** ** Facts about the numeric primitives *)

Section JSFacts.

Lemma ltb_true (x y : R) : ltb x y = true <-> x < y.
Proof.
  unfold ltb; destruct (Rlt_dec x y); split; intros; auto; discriminate.
Qed.

Lemma ltb_false (x y : R) : ltb x y = false <-> y <= x.
Proof.
  unfold ltb; destruct (Rlt_dec x y); split; intros; auto;
    try discriminate; lra.
Qed.

Lemma leb_true (x y : R) : leb x y = true <-> x <= y.
Proof.
  unfold leb; destruct (Rle_dec x y); split; intros; auto; discriminate.
Qed.

Lemma leb_false (x y : R) : leb x y = false <-> y < x.
Proof.
  unfold leb; destruct (Rle_dec x y); split; intros; auto;
    try discriminate; lra.
Qed.

Lemma Rpower_two (x : R) : 0 < x -> Rpower x 2.0 = x * x.
Proof.
  intros Hx. replace 2.0 with (INR 2) by (simpl; lra).
  rewrite Rpower_pow by assumption. simpl. ring.
Qed.

Lemma Math_pow_square (x : R) : Math_pow x 2.0 = x * x.
Proof.
  unfold Math_pow. destruct (Rlt_dec 0 x) as [Hpos | Hnpos].
  - now apply Rpower_two.
  - destruct (Req_dec_T x 0) as [-> | Hnz].
    + destruct (Req_dec_T 2.0 0); lra.
    + rewrite Rpower_two by lra. ring.
Qed.

Lemma Rpower_unit (x y : R) : 0 < x <= 1 -> 0 <= y -> 0 < Rpower x y <= 1.
Proof.
  intros [Hx0 Hx1] Hy. unfold Rpower. split; [apply exp_pos |].
  rewrite <- exp_0. destruct (Req_dec_T (y * ln x) 0) as [-> | Hne]; [lra |].
  left. apply exp_increasing.
  assert (ln x <= 0).
  { destruct (Req_dec_T x 1) as [-> | Hx]; [rewrite ln_1; lra |].
    left. rewrite <- ln_1. apply ln_increasing; lra. }
  nra.
Qed.

Lemma Math_pow_unit (x y : R) : 0 <= x <= 1 -> 0 < y -> 0 <= Math_pow x y <= 1.
Proof.
  intros [Hx0 Hx1] Hy. unfold Math_pow.
  destruct (Rlt_dec 0 x).
  - destruct (Rpower_unit x y); lra.
  - destruct (Req_dec_T x 0); [| lra].
    destruct (Req_dec_T y 0); lra.
Qed.

Lemma Math_pow_zero (y : R) : 0 < y -> Math_pow 0 y = 0.
Proof.
  intros Hy. unfold Math_pow. destruct (Rlt_dec 0 0); [lra |].
  destruct (Req_dec_T 0 0); [| lra]. destruct (Req_dec_T y 0); lra.
Qed.

(** [Math.pow(x, 0.5)] is the square root, bracketed by any two numbers
    whose squares bracket [x]. *)
Lemma Math_pow_half_bounds (x lo hi : R) :
  0 < x -> 0 <= lo -> 0 <= hi -> lo * lo <= x <= hi * hi ->
  lo <= Math_pow x 0.5 <= hi.
Proof.
  intros Hx Hlo Hhi [Hl Hh]. unfold Math_pow.
  destruct (Rlt_dec 0 x) as [_ | N]; [| lra].
  replace 0.5 with (/ 2) by lra. rewrite Rpower_sqrt by exact Hx.
  split.
  - rewrite <- (sqrt_square lo) by exact Hlo. apply sqrt_le_1_alt. exact Hl.
  - rewrite <- (sqrt_square hi) by exact Hhi. apply sqrt_le_1_alt. exact Hh.
Qed.

Lemma Math_pow_three_halves (x : R) :
  0 < x -> Math_pow x 1.5 = x * Math_pow x 0.5.
Proof.
  intros Hx. unfold Math_pow. destruct (Rlt_dec 0 x) as [_ | N]; [| lra].
  replace 1.5 with (1 + 0.5) by lra.
  rewrite Rpower_plus, Rpower_1 by exact Hx. reflexivity.
Qed.

Lemma Math_floor_le (x y : R) : x <= y -> (Math_floor x <= Math_floor y)%Z.
Proof. apply Zfloor_le. Qed.

Lemma Math_floor_nonneg (x : R) : 0 <= x -> (0 <= Math_floor x)%Z.
Proof. intros H. apply (Zfloor_lub 0). exact H. Qed.

Lemma Math_floor_range (lo hi : Z) (x : R) :
  IZR lo <= x -> x < IZR hi + 1 -> (lo <= Math_floor x <= hi)%Z.
Proof.
  intros Hlo Hhi. split; [now apply Zfloor_lub |].
  destruct (Zfloor_bound x) as [Hb _].
  assert (IZR (Zfloor x) < IZR (hi + 1)) by (rewrite plus_IZR; lra).
  apply lt_IZR in H. unfold Math_floor. lia.
Qed.

End JSFacts.

(** ** The random source threads one tape *)

Section Tape.

Lemma keeps_tape_ret {A} (a : A) : keeps_tape (ret a).
Proof. intros s; reflexivity. Qed.

Lemma keeps_tape_bind {A B} (c : M A) (k : A -> M B) :
  keeps_tape c -> (forall a, keeps_tape (k a)) -> keeps_tape (c <- c ;; k c).
Proof.
  intros Hc Hk s. unfold bind. specialize (Hc s).
  destruct (c s) as [a s']. simpl in Hc. rewrite Hk. exact Hc.
Qed.

Lemma keeps_tape_random : keeps_tape Math_random.
Proof. intros s; reflexivity. Qed.

Lemma keeps_tape_if {A} (b : bool) (c1 c2 : M A) :
  keeps_tape c1 -> keeps_tape c2 -> keeps_tape (if b then c1 else c2).
Proof. destruct b; auto. Qed.

End Tape.

Create HintDb tape.
#[export] Hint Resolve keeps_tape_ret keeps_tape_random : tape.

Ltac tape_steps :=
  repeat first
    [ apply keeps_tape_ret
    | apply keeps_tape_random
    | apply keeps_tape_bind; [| intro]
    | apply keeps_tape_if
    | solve [auto with tape] ].

Lemma keeps_tape_gaussianRandom (mean stdDev : R) :
  keeps_tape (Gaussian.gaussianRandom mean stdDev).
Proof. unfold Gaussian.gaussianRandom. tape_steps. Qed.

#[export] Hint Resolve keeps_tape_gaussianRandom : tape.

(** ** Spawn policy *)

Section SpawnPolicy.

Lemma energy_ramp_le (e1 e2 : R) :
  0 <= e1 -> e1 <= e2 -> Math_pow e1 2.0 <= Math_pow e2 2.0.
Proof. intros H0 H12. rewrite !Math_pow_square. nra. Qed.

(** C2.  For every two slider values [10 <= p1 <= p2 <= 100], in both
    variants the spawn rate at [p1] is at most the capacity at [p1], and the
    spawn rate and the capacity at [p1] are at most those at [p2]; the 3D
    variant sees the slider as [energyScalar = energyPercent / 100]. *)
Theorem spawn_rate_within_capacity_and_monotone (p1 p2 : R) :
  10 <= p1 -> p1 <= p2 -> p2 <= 100 ->
  (Fire2D.spawnPerFrame p1 <= Fire2D.particleCountCap p1)%Z
  /\ (Fire2D.spawnPerFrame p1 <= Fire2D.spawnPerFrame p2)%Z
  /\ (Fire2D.particleCountCap p1 <= Fire2D.particleCountCap p2)%Z
  /\ (Fire3D.spawnRate (p1 / 100.0) <= Fire3D.particleCap (p1 / 100.0))%Z
  /\ (Fire3D.spawnRate (p1 / 100.0) <= Fire3D.spawnRate (p2 / 100.0))%Z
  /\ (Fire3D.particleCap (p1 / 100.0) <= Fire3D.particleCap (p2 / 100.0))%Z.
Proof.
  intros Hlo H12 Hhi.
  unfold Fire2D.spawnPerFrame, Fire2D.particleCountCap,
    Fire3D.spawnRate, Fire3D.particleCap.
  assert (Hramp : Math_pow (p1 / 100.0) 2.0 <= Math_pow (p2 / 100.0) 2.0)
    by (apply energy_ramp_le; lra).
  assert (Hpos : 0 <= Math_pow (p1 / 100.0) 2.0)
    by (rewrite Math_pow_square; nra).
  assert (Math_floor (p1 / 10) <= Math_floor (p1 * 3))%Z
    by (apply Math_floor_le; lra).
  assert (Math_floor (p1 / 10) <= Math_floor (p2 / 10))%Z
    by (apply Math_floor_le; lra).
  assert (Math_floor (p1 * 3) <= Math_floor (p2 * 3))%Z
    by (apply Math_floor_le; lra).
  assert (Math_floor (Math_pow (p1 / 100.0) 2.0 * 200)
          <= Math_floor (Math_pow (p1 / 100.0) 2.0 * 5500))%Z
    by (apply Math_floor_le; lra).
  assert (Math_floor (Math_pow (p1 / 100.0) 2.0 * 200)
          <= Math_floor (Math_pow (p2 / 100.0) 2.0 * 200))%Z
    by (apply Math_floor_le; lra).
  assert (Math_floor (Math_pow (p1 / 100.0) 2.0 * 5500)
          <= Math_floor (Math_pow (p2 / 100.0) 2.0 * 5500))%Z
    by (apply Math_floor_le; lra).
  lia.
Qed.

Lemma spawn_rate_within_capacity_and_monotone_witness :
  (Fire2D.spawnPerFrame 10 <= Fire2D.particleCountCap 10)%Z
  /\ (Fire2D.spawnPerFrame 10 <= Fire2D.spawnPerFrame 100)%Z
  /\ (Fire2D.particleCountCap 10 <= Fire2D.particleCountCap 100)%Z
  /\ (Fire3D.spawnRate (10 / 100.0) <= Fire3D.particleCap (10 / 100.0))%Z
  /\ (Fire3D.spawnRate (10 / 100.0) <= Fire3D.spawnRate (100 / 100.0))%Z
  /\ (Fire3D.particleCap (10 / 100.0) <= Fire3D.particleCap (100 / 100.0))%Z.
Proof.
  apply (spawn_rate_within_capacity_and_monotone 10 100); lra.
Defined.

(** The values the source's comments quote for the 2D variant. *)
Lemma spawnPerFrame_at_100 : Fire2D.spawnPerFrame 100 = 15%Z.
Proof.
  unfold Fire2D.spawnPerFrame, Math_floor.
  rewrite (Zfloor_eq 10); [reflexivity | lra].
Qed.

Lemma particleCountCap_at_100 : Fire2D.particleCountCap 100 = 700%Z.
Proof.
  unfold Fire2D.particleCountCap, Math_floor.
  rewrite (Zfloor_eq 300); [reflexivity | lra].
Qed.

End SpawnPolicy.

(** ** The Box-Muller sampler *)

Section BoxMuller.

Lemma clamped_draw_in_unit (u : R) :
  0 <= u < 1 -> 1e-12 <= Math_max u 1e-12 < 1.
Proof.
  intros [H0 H1]. unfold Math_max. split; [apply Rmax_r |].
  apply Rmax_lub_lt; lra.
Qed.

Lemma ln_negative (u : R) : 0 < u < 1 -> ln u < 0.
Proof. intros [H0 H1]. rewrite <- ln_1. apply ln_increasing; lra. Qed.

(** C6.  With [u1], [u2] the next two draws of the uniform source, both in
    [0, 1), [gaussianRandom mean stdDev] consumes exactly those two draws and
    returns [mean + stdDev * sqrt (-2 ln (max u1 1e-12)) * cos (2 pi u2)];
    the clamped [u1] lies in [1e-12, 1), so the logarithm is taken of a
    positive number and the square root of a positive number. *)
Theorem gaussianRandom_is_box_muller (mean stdDev : R) (draws : nat -> R)
    (n : nat) :
  0 <= draws n < 1 -> 0 <= draws (S n) < 1 ->
  let u1 := Math_max (draws n) 1e-12 in
  let u2 := draws (S n) in
  Gaussian.gaussianRandom mean stdDev (Rng.mk draws n)
  = (mean + stdDev * (sqrt (-2 * ln u1) * cos (2 * PI * u2)),
     Rng.mk draws (S (S n)))
  /\ 1e-12 <= u1 < 1
  /\ 0 < -2 * ln u1.
Proof.
  intros Hu1 Hu2 u1 u2.
  pose proof (clamped_draw_in_unit _ Hu1) as Hc. fold u1 in Hc.
  split; [| split; [exact Hc |]].
  - unfold Gaussian.gaussianRandom, bind, Math_random, ret; simpl.
    unfold Math_sqrt, Math_log, Math_cos, Math_PI. fold u1. f_equal.
    replace (-2.0) with (-2) by lra. replace 2.0 with 2 by lra.
    unfold u2. ring.
  - assert (ln u1 < 0) by (apply ln_negative; lra). lra.
Qed.

Lemma gaussianRandom_is_box_muller_witness :
  let draws := fun _ : nat => 0 in
  Gaussian.gaussianRandom 3 2 (Rng.mk draws 0)
  = (3 + 2 * (sqrt (-2 * ln (Math_max 0 1e-12)) * cos (2 * PI * 0)),
     Rng.mk draws 2)
  /\ 1e-12 <= Math_max 0 1e-12 < 1
  /\ 0 < -2 * ln (Math_max 0 1e-12).
Proof.
  intros draws.
  apply (gaussianRandom_is_box_muller 3 2 draws 0); unfold draws; lra.
Defined.

End BoxMuller.

(** ** The particle factories *)

Section Factory.

Lemma floored_spread_positive (spread : R) : 1e-3 <= Math_max spread 1e-3.
Proof. unfold Math_max. apply Rmax_r. Qed.

(** C9.  For every energy input, every sampler and every state of the random
    source, both factories floor the spawn spread at [1e-3] and use the
    floored value both as the standard deviation handed to the sampler (once
    in 2D, for x and for z in the 3D port) and as the divisor of
    [normalizedDistanceFromCenter]; the floored value is at least [1e-3], so
    it is neither a zero deviation nor a zero divisor. *)
Theorem spawn_spread_is_floored (canvasWidthPx canvasHeightPx energyPercent : R)
    (gaussian : R -> R -> M R) (s : Rng.t) :
  let sd2 := Math_max (40 - energyPercent / 100 * 25) 1e-3 in
  let p :=
    fst (Fire2D.createFireParticle canvasWidthPx canvasHeightPx energyPercent
           gaussian s) in
  let sd3 := Math_max (1.5 - energyPercent / 100 * 1.0) 1e-3 in
  let q := fst (Fire3DLib.createFireParticle energyPercent gaussian s) in
  (1e-3 <= sd2 /\ sd2 <> 0
   /\ Fire2D.positionX p = fst (gaussian (canvasWidthPx / 2) sd2 s)
   /\ Fire2D.normalizedDistanceFromCenter p
      = Rabs (Fire2D.positionX p - canvasWidthPx / 2) / sd2)
  /\ (1e-3 <= sd3 /\ sd3 <> 0
      /\ Fire3DLib.positionX q = fst (gaussian 0 sd3 s)
      /\ Fire3DLib.positionZ q
         = fst (gaussian 0 sd3 (snd (gaussian 0 sd3 s)))
      /\ Fire3DLib.normalizedDistanceFromCenter q
         = sqrt (Math_pow (Fire3DLib.positionX q - 0) 2
                 + Math_pow (Fire3DLib.positionZ q) 2) / sd3).
Proof.
  intros sd2 p sd3 q.
  pose proof (floored_spread_positive (40 - energyPercent / 100 * 25)) as H2.
  pose proof (floored_spread_positive (1.5 - energyPercent / 100 * 1.0)) as H3.
  fold sd2 in H2. fold sd3 in H3.
  split.
  - split; [exact H2 | split; [lra |]].
    unfold p, Fire2D.createFireParticle, bind. fold sd2.
    destruct (gaussian (canvasWidthPx / 2) sd2 s) as [spawnX s1]. simpl.
    destruct (ltb (tape s1 (S (cursor s1))) 0.15); simpl;
      match goal with
      | |- context [ltb ?a 0.08] => destruct (ltb a 0.08)
      end; simpl; auto.
  - split; [exact H3 | split; [lra |]].
    unfold q, Fire3DLib.createFireParticle, bind. fold sd3.
    destruct (gaussian 0 sd3 s) as [spawnX s1]. simpl.
    destruct (gaussian 0 sd3 s1) as [spawnZ s2]. simpl.
    destruct (ltb (tape s2 (S (cursor s2))) 0.15); simpl;
      match goal with
      | |- context [ltb ?a 0.08] => destruct (ltb a 0.08)
      end; simpl; auto.
Qed.

(** The factory inside FireParticles.jsx has no floor: its spawn radius is
    positive on the slider's range and vanishes at [energyScalar = 1.25]. *)
Lemma spawnRadius_on_slider_range (energyScalar : R) :
  0.1 <= energyScalar <= 1 -> 0.3 <= Fire3D.spawnRadius energyScalar <= 1.38.
Proof. unfold Fire3D.spawnRadius. lra. Qed.

Lemma spawnRadius_vanishes : Fire3D.spawnRadius 1.25 = 0.
Proof. unfold Fire3D.spawnRadius. lra. Qed.

End Factory.

(** ** The colour mappers *)

Section Colour.

Lemma computeParticleColorRGBA_rgb_range (p : Fire2D.FireParticle) (ep : R) :
  10 <= ep <= 100 ->
  let c := Fire2D.computeParticleColorRGBA p ep in
  (0 <= Fire2D.red c <= 255)%Z /\ (0 <= Fire2D.green c <= 255)%Z
  /\ (0 <= Fire2D.blue c <= 255)%Z.
Proof.
  intros Hep. unfold Fire2D.computeParticleColorRGBA.
  destruct (ltb 0.7 (ep / 100)) eqn:Hhigh.
  - apply ltb_true in Hhigh. simpl.
    repeat split; try (apply Math_floor_range; lra);
      apply (Math_floor_range 0 255); lra.
  - apply ltb_false in Hhigh.
    destruct (ltb 0.4 (ep / 100)) eqn:Hmid.
    + apply ltb_true in Hmid. simpl.
      repeat split; apply (Math_floor_range 0 255); lra.
    + apply ltb_false in Hmid. simpl.
      repeat split; apply (Math_floor_range 0 255); lra.
Qed.

Lemma computeParticleColorRGBA_alpha_range (p : Fire2D.FireParticle) (ep : R) :
  0 <= Fire2D.lifeFraction p <= 1 ->
  0 <= Fire2D.alpha (Fire2D.computeParticleColorRGBA p ep) <= 0.9.
Proof.
  intros Hlife. unfold Fire2D.computeParticleColorRGBA.
  assert (0 <= Math_pow (Fire2D.lifeFraction p) 0.7 <= 1)
    by (apply Math_pow_unit; lra).
  destruct (ltb 0.7 (ep / 100)); [| destruct (ltb 0.4 (ep / 100))];
    simpl; lra.
Qed.

(** The RGB channels of the 2D mapper are computed from the slider alone. *)
Lemma computeParticleColorRGBA_rgb_from_energy (p q : Fire2D.FireParticle)
    (ep : R) :
  Fire2D.red (Fire2D.computeParticleColorRGBA p ep)
  = Fire2D.red (Fire2D.computeParticleColorRGBA q ep)
  /\ Fire2D.green (Fire2D.computeParticleColorRGBA p ep)
     = Fire2D.green (Fire2D.computeParticleColorRGBA q ep)
  /\ Fire2D.blue (Fire2D.computeParticleColorRGBA p ep)
     = Fire2D.blue (Fire2D.computeParticleColorRGBA q ep).
Proof.
  unfold Fire2D.computeParticleColorRGBA.
  destruct (ltb 0.7 (ep / 100)); [| destruct (ltb 0.4 (ep / 100))];
    simpl; auto.
Qed.

Lemma rgb_eq (r g b r' g' b' : R) :
  r = r' -> g = g' -> b = b' -> (r, g, b) = (r', g', b').
Proof. intros -> -> ->. reflexivity. Qed.

(** The four bands of the 3D base colour, each an affine function of the
    life fraction. *)
Lemma baseColor_bands (life : R) :
  (0.9 < life -> Fire3D.baseColor life = (1, 1, 2.8 - 2 * life))
  /\ (0.7 < life <= 0.9 ->
      Fire3D.baseColor life = (1, 2.4 - 2 * life, 3.6 - 4 * life))
  /\ (0.4 < life <= 0.7 ->
      Fire3D.baseColor life = (1, (3.4 - 4 * life) / 3, 0))
  /\ (life <= 0.4 ->
      Fire3D.baseColor life = (1 - 1.25 * life, 0.5 * life, 0)).
Proof.
  unfold Fire3D.baseColor.
  repeat split; intros H;
    destruct (ltb 0.9 life) eqn:H9;
    destruct (ltb 0.7 life) eqn:H7;
    destruct (ltb 0.4 life) eqn:H4;
    rewrite ?ltb_true, ?ltb_false in *; try lra;
    apply rgb_eq; lra.
Qed.

Lemma baseColor_range (life : R) :
  0 <= life <= 1 ->
  let '(r, g, b) := Fire3D.baseColor life in
  0 <= r <= 1 /\ 0 <= g <= 1 /\ 0 <= b <= 1.
Proof.
  intros Hlife. destruct (baseColor_bands life) as (B1 & B2 & B3 & B4).
  destruct (Rlt_dec 0.9 life) as [H9 | H9]; [rewrite B1 by lra; lra |].
  destruct (Rlt_dec 0.7 life) as [H7 | H7]; [rewrite B2 by lra; lra |].
  destruct (Rlt_dec 0.4 life) as [H4 | H4]; [rewrite B3 by lra; lra |].
  rewrite B4 by lra; lra.
Qed.

Lemma tinted_channel_range (ch h k fb : R) :
  0 <= ch <= 1 -> 0 <= h -> 0 <= k -> 0 <= fb <= 1 ->
  0 <= Math_min 1.0 (ch + h * k) * fb <= 1.
Proof.
  intros Hch Hh Hk Hfb. unfold Math_min.
  assert (0 <= Rmin 1.0 (ch + h * k) <= 1).
  { split; [apply Rmin_glb; nra |].
    apply Rle_trans with 1.0; [apply Rmin_l | lra]. }
  nra.
Qed.

Lemma updateParticleColor_range (c : THREE.Color) (life e : R) :
  0 <= life <= 1 -> 0 <= e <= 1 ->
  let out := Fire3D.updateParticleColor c life e in
  0 <= THREE.r out <= 1 /\ 0 <= THREE.g out <= 1 /\ 0 <= THREE.b out <= 1.
Proof.
  intros Hlife He. unfold Fire3D.updateParticleColor.
  pose proof (baseColor_range life Hlife) as Hbase.
  destruct (Fire3D.baseColor life) as [[r g] b].
  destruct Hbase as (Hr & Hg & Hb).
  assert (Hramp : 0 <= Math_pow e 1.5 <= 1) by (apply Math_pow_unit; lra).
  assert (Hlb : 0 <= Math_pow life 0.5 <= 1) by (apply Math_pow_unit; lra).
  assert (Hhot : 0 <= Math_pow e 1.5 * 1.5 * life) by nra.
  assert (Hfb : 0 <= Math_pow life 0.5 * (0.3 + Math_pow e 1.5 * 0.7) <= 1)
    by nra.
  simpl. repeat split; apply tinted_channel_range; auto; lra.
Qed.

(** The colour object handed to the 3D mapper is overwritten whole. *)
Lemma updateParticleColor_overwrites (c c' : THREE.Color) (life e : R) :
  Fire3D.updateParticleColor c life e = Fire3D.updateParticleColor c' life e.
Proof.
  unfold Fire3D.updateParticleColor.
  destruct (Fire3D.baseColor life) as [[r g] b]. reflexivity.
Qed.

(** C7.  Both colour mappers are functions of [(lifeFraction, energy)] alone:
    the 2D mapper returns the same colour for any two particles with the
    same life fraction, whatever their other fields, and the 3D mapper
    returns the same colour whatever the colour object held before; neither
    draws from the random source.  For a life fraction in [0, 1] and a
    slider value in [10, 100] the 2D channels are integers in [0, 255] with
    alpha in [0, 1], and the 3D channels are in [0, 1]. *)
Theorem color_mapper_pure_and_in_range (p q : Fire2D.FireParticle)
    (c c' : THREE.Color) (life energyPercent : R) :
  Fire2D.lifeFraction p = life -> Fire2D.lifeFraction q = life ->
  0 <= life <= 1 -> 10 <= energyPercent <= 100 ->
  let out2 := Fire2D.computeParticleColorRGBA p energyPercent in
  let out3 := Fire3D.updateParticleColor c life (energyPercent / 100.0) in
  out2 = Fire2D.computeParticleColorRGBA q energyPercent
  /\ out3 = Fire3D.updateParticleColor c' life (energyPercent / 100.0)
  /\ ((0 <= Fire2D.red out2 <= 255)%Z /\ (0 <= Fire2D.green out2 <= 255)%Z
      /\ (0 <= Fire2D.blue out2 <= 255)%Z /\ 0 <= Fire2D.alpha out2 <= 1)
  /\ (0 <= THREE.r out3 <= 1 /\ 0 <= THREE.g out3 <= 1
      /\ 0 <= THREE.b out3 <= 1).
Proof.
  intros Hp Hq Hlife Hep out2 out3.
  split; [| split; [| split]].
  - unfold out2, Fire2D.computeParticleColorRGBA. rewrite Hp, Hq. reflexivity.
  - apply updateParticleColor_overwrites.
  - destruct (computeParticleColorRGBA_rgb_range p energyPercent Hep)
      as (Hr & Hg & Hb).
    assert (Ha : 0 <= Fire2D.alpha out2 <= 0.9)
      by (apply computeParticleColorRGBA_alpha_range; rewrite Hp; exact Hlife).
    repeat split; try apply Hr; try apply Hg; try apply Hb; lra.
  - apply updateParticleColor_range; lra.
Qed.

Lemma color_mapper_pure_and_in_range_witness :
  let p := Fire2D.mkParticle 400 300 0 (-3) 100 50 0.5 5 0 false in
  let q := Fire2D.mkParticle 380 200 1 (-2) 60 30 0.5 6 1 true in
  let out2 := Fire2D.computeParticleColorRGBA p 50 in
  let out3 := Fire3D.updateParticleColor THREE.newColor 0.5 (50 / 100.0) in
  out2 = Fire2D.computeParticleColorRGBA q 50
  /\ out3 = Fire3D.updateParticleColor (THREE.mkColor 0 0 0) 0.5 (50 / 100.0)
  /\ ((0 <= Fire2D.red out2 <= 255)%Z /\ (0 <= Fire2D.green out2 <= 255)%Z
      /\ (0 <= Fire2D.blue out2 <= 255)%Z /\ 0 <= Fire2D.alpha out2 <= 1)
  /\ (0 <= THREE.r out3 <= 1 /\ 0 <= THREE.g out3 <= 1
      /\ 0 <= THREE.b out3 <= 1).
Proof.
  intros p q.
  apply (color_mapper_pure_and_in_range p q THREE.newColor
           (THREE.mkColor 0 0 0) 0.5 50); simpl; lra.
Defined.

(** The colour the 3D mapper writes at life fraction 0 is black. *)
Lemma updateParticleColor_black_at_death (c : THREE.Color) (e : R) :
  Fire3D.updateParticleColor c 0 e = THREE.mkColor 0 0 0.
Proof.
  unfold Fire3D.updateParticleColor.
  destruct (Fire3D.baseColor 0) as [[r g] b].
  rewrite (Math_pow_zero 0.5) by lra. unfold THREE.setRGB.
  f_equal; ring.
Qed.

(** The 2D mapper, as its palette is documented, takes its RGB from the
    slider and only its alpha from the life fraction: at slider value 10 the
    freshest particle (life fraction 1) and a dying one (life fraction 0.05)
    both get the red-orange RGB (228, 85, 15). *)
Lemma rgb_2d_same_for_fresh_and_dying :
  let fresh := Fire2D.mkParticle 400 580 0 (-2) 50 50 1 5 0 false in
  let dying := Fire2D.mkParticle 400 200 0 (-2) 50 2.5 0.05 5 0 false in
  let c1 := Fire2D.computeParticleColorRGBA fresh 10 in
  let c2 := Fire2D.computeParticleColorRGBA dying 10 in
  (Fire2D.red c1, Fire2D.green c1, Fire2D.blue c1) = (228, 85, 15)%Z
  /\ (Fire2D.red c2, Fire2D.green c2, Fire2D.blue c2) = (228, 85, 15)%Z.
Proof.
  unfold Fire2D.computeParticleColorRGBA.
  assert (H7 : ltb 0.7 (10 / 100) = false) by (apply ltb_false; lra).
  assert (H4 : ltb 0.4 (10 / 100) = false) by (apply ltb_false; lra).
  rewrite H7, H4. simpl. unfold Math_floor.
  rewrite (Zfloor_eq 228) by lra.
  rewrite (Zfloor_eq 85) by lra.
  rewrite (Zfloor_eq 15) by lra.
  split; reflexivity.
Qed.

(** C3.  The 3D mapper does band its base colour on the life fraction, at
    0.9, 0.7 and 0.4, but not as a fade from white through yellow, orange
    and red to dark, which is what the claim and the comment above the code
    ("Fades from White -> Yellow -> Orange -> Red -> Dark") describe: the
    interpolation parameter of each band is 0 at the band's old end, so
    every band runs the wrong way round and the colour jumps at each edge.
    - Inside the bands: the freshest particle (life fraction 1) has less
      blue than one at 0.91; the particle at 0.9 has less green and less
      blue than the older one at 0.71; the one at 0.7 less green than the
      one at 0.41; the one at 0.4 less red than the one at 0.
    - At the edges: a step of 0.0001 in the life fraction across 0.9, 0.7
      and 0.4 changes blue by more than 0.9, green by more than 0.7 and red
      by more than 0.4.
    - In the colour written at slider value 10: the particle at life
      fraction 0.9 is written with less green than the older one at 0.8,
      and the one at 1 with less blue than the one at 0.95. *)
Theorem base_color_3d_fades_backwards :
  let red l := fst (fst (Fire3D.baseColor l)) in
  let green l := snd (fst (Fire3D.baseColor l)) in
  let blue l := snd (Fire3D.baseColor l) in
  let written l := Fire3D.updateParticleColor THREE.newColor l (10 / 100.0) in
  (blue 1 + 0.1 < blue 0.91
   /\ green 0.9 + 0.3 < green 0.71 /\ blue 0.9 + 0.7 < blue 0.71
   /\ green 0.7 + 0.3 < green 0.41
   /\ red 0.4 + 0.4 < red 0)
  /\ (blue 0.9 + 0.9 < blue 0.9001
      /\ green 0.7 + 0.7 < green 0.7001
      /\ red 0.4 + 0.4 < red 0.4001)
  /\ (THREE.g (written 0.9) < THREE.g (written 0.8)
      /\ THREE.b (written 1) < THREE.b (written 0.95)).
Proof.
  intros red green blue written.
  assert (E : forall l, red l = fst (fst (Fire3D.baseColor l))
                        /\ green l = snd (fst (Fire3D.baseColor l))
                        /\ blue l = snd (Fire3D.baseColor l))
    by (intros l; repeat split).
  assert (B1 : forall l, 0.9 < l -> red l = 1 /\ green l = 1
                                  /\ blue l = 2.8 - 2 * l).
  { intros l H. destruct (E l) as (-> & -> & ->).
    destruct (baseColor_bands l) as (B & _). rewrite B by lra. simpl. lra. }
  assert (B2 : forall l, 0.7 < l <= 0.9 ->
             red l = 1 /\ green l = 2.4 - 2 * l /\ blue l = 3.6 - 4 * l).
  { intros l H. destruct (E l) as (-> & -> & ->).
    destruct (baseColor_bands l) as (_ & B & _). rewrite B by lra. simpl. lra. }
  assert (B3 : forall l, 0.4 < l <= 0.7 ->
             red l = 1 /\ green l = (3.4 - 4 * l) / 3 /\ blue l = 0).
  { intros l H. destruct (E l) as (-> & -> & ->).
    destruct (baseColor_bands l) as (_ & _ & B & _). rewrite B by lra.
    simpl. lra. }
  assert (B4 : forall l, l <= 0.4 ->
             red l = 1 - 1.25 * l /\ green l = 0.5 * l /\ blue l = 0).
  { intros l H. destruct (E l) as (-> & -> & ->).
    destruct (baseColor_bands l) as (_ & _ & _ & B). rewrite B by lra.
    simpl. lra. }
  split; [| split].
  - destruct (B1 1) as (_ & _ & ->); [lra |].
    destruct (B1 0.91) as (_ & _ & ->); [lra |].
    destruct (B2 0.9) as (_ & -> & ->); [lra |].
    destruct (B2 0.71) as (_ & -> & ->); [lra |].
    destruct (B3 0.7) as (_ & -> & _); [lra |].
    destruct (B3 0.41) as (_ & -> & _); [lra |].
    destruct (B4 0.4) as (-> & _ & _); [lra |].
    destruct (B4 0) as (-> & _ & _); [lra |].
    lra.
  - destruct (B2 0.9) as (_ & _ & ->); [lra |].
    destruct (B1 0.9001) as (_ & _ & ->); [lra |].
    destruct (B3 0.7) as (_ & -> & _); [lra |].
    destruct (B2 0.7001) as (_ & -> & _); [lra |].
    destruct (B4 0.4) as (-> & _ & _); [lra |].
    destruct (B3 0.4001) as (-> & _ & _); [lra |].
    lra.
  - assert (Hramp : 0 <= Math_pow (10 / 100.0) 1.5 <= 0.032).
    { rewrite Math_pow_three_halves by lra.
      pose proof (Math_pow_half_bounds (10 / 100.0) 0.31 0.32) as L.
      specialize (L ltac:(lra) ltac:(lra) ltac:(lra) ltac:(lra)). nra. }
    pose proof (Math_pow_half_bounds 1 1 1) as L1.
    pose proof (Math_pow_half_bounds 0.95 0.97 0.98) as L95.
    pose proof (Math_pow_half_bounds 0.9 0.94 0.95) as L9.
    pose proof (Math_pow_half_bounds 0.8 0.89 0.9) as L8.
    specialize (L1 ltac:(lra) ltac:(lra) ltac:(lra) ltac:(lra)).
    specialize (L95 ltac:(lra) ltac:(lra) ltac:(lra) ltac:(lra)).
    specialize (L9 ltac:(lra) ltac:(lra) ltac:(lra) ltac:(lra)).
    specialize (L8 ltac:(lra) ltac:(lra) ltac:(lra) ltac:(lra)).
    unfold written, Fire3D.updateParticleColor.
    destruct (baseColor_bands 1) as (C1 & _). rewrite C1 by lra.
    destruct (baseColor_bands 0.95) as (C95 & _). rewrite C95 by lra.
    destruct (baseColor_bands 0.9) as (_ & C9 & _). rewrite C9 by lra.
    destruct (baseColor_bands 0.8) as (_ & C8 & _). rewrite C8 by lra.
    cbv zeta. unfold THREE.setRGB. cbn [THREE.g THREE.b].
    set (ramp := Math_pow (10 / 100.0) 1.5) in *.
    unfold Math_min.
    split.
    + rewrite (Rmin_right 1.0 (2.4 - 2 * 0.9 + ramp * 1.5 * 0.9 * 0.2)) by lra.
      rewrite (Rmin_right 1.0 (2.4 - 2 * 0.8 + ramp * 1.5 * 0.8 * 0.2)) by lra.
      nra.
    + rewrite (Rmin_right 1.0 (2.8 - 2 * 1 + ramp * 1.5 * 1 * 1.0)) by lra.
      rewrite (Rmin_right 1.0 (2.8 - 2 * 0.95 + ramp * 1.5 * 0.95 * 1.0))
        by lra.
      nra.
Qed.

End Colour.

(** ** The 2D step: one particle *)

Section Step2D.

Import Fire2D.

Lemma actualEnergyLoss_lower_bound (ep : R) (p : FireParticle) :
  ep <= 100 -> 0 <= normalizedDistanceFromCenter p ->
  0.8 <= actualEnergyLoss ep p.
Proof.
  intros Hep Hnd. unfold actualEnergyLoss.
  destruct (receivedBurstEnergy p); nra.
Qed.

Lemma updateParticle_fields (W ep : R) (frame : nat) (p : FireParticle)
    (s : Rng.t) :
  let p' := fst (updateParticle W ep frame p s) in
  remainingEnergy p' = remainingEnergy p - actualEnergyLoss ep p
  /\ initialEnergy p' = initialEnergy p
  /\ lifeFraction p' = lifeFractionOf (remainingEnergy p') (initialEnergy p)
  /\ normalizedDistanceFromCenter p' = normalizedDistanceFromCenter p
  /\ receivedBurstEnergy p' = receivedBurstEnergy p.
Proof.
  unfold updateParticle, bind, Math_random. simpl.
  destruct (ltb (tape s (cursor s)) 0.02); simpl; auto.
Qed.

Lemma actualEnergyLoss_after_update (W ep : R) (frame : nat)
    (p : FireParticle) (s : Rng.t) :
  actualEnergyLoss ep (fst (updateParticle W ep frame p s))
  = actualEnergyLoss ep p.
Proof.
  destruct (updateParticle_fields W ep frame p s) as (_ & _ & _ & Hnd & Hb).
  unfold actualEnergyLoss. rewrite Hnd, Hb. reflexivity.
Qed.

Lemma updateN_remainingEnergy (n : nat) (W ep : R) :
  forall (frame : nat) (p : FireParticle) (s : Rng.t),
    remainingEnergy (fst (updateN n W ep frame p s))
    = remainingEnergy p - INR n * actualEnergyLoss ep p.
Proof.
  induction n as [| n IH]; intros frame p s.
  - simpl. lra.
  - change (updateN (S n) W ep frame p s)
      with (bind (updateParticle W ep frame p)
              (fun p' => updateN n W ep (S frame) p') s).
    unfold bind.
    pose proof (updateParticle_fields W ep frame p s) as (Hrem & _).
    pose proof (actualEnergyLoss_after_update W ep frame p s) as Hloss.
    destruct (updateParticle W ep frame p s) as [p1 s1]. simpl in Hrem, Hloss.
    rewrite IH, Hrem, Hloss, S_INR. ring.
Qed.

Lemma onScreen_true (W : R) (p : FireParticle) :
  onScreen W p = true <->
  0 < remainingEnergy p /\ -30 < positionY p /\ -30 < positionX p
  /\ positionX p < W + 30.
Proof.
  unfold onScreen. rewrite !andb_true_iff, !ltb_true. tauto.
Qed.

Lemma stepParticle_verdict (W ep : R) (frame : nat) (p : FireParticle)
    (s : Rng.t) :
  let p' := fst (updateParticle W ep frame p s) in
  stepParticle W ep frame p s
  = ((p', if onScreen W p' then Some (drawParticle ep p') else None),
     snd (updateParticle W ep frame p s)).
Proof.
  unfold stepParticle, bind.
  destruct (updateParticle W ep frame p s) as [p' s']. simpl.
  destruct (onScreen W p'); reflexivity.
Qed.

(** *** Decay of burst and plain particles *)

(** C4, as the claim states it, fails at the centre line: a burst particle
    and a plain one, both spawned at distance 0 with initial energy 120 (a
    value the factory gives to either kind at slider value 100), have the
    same remaining energy after 3 frames at slider value 100. *)
Lemma burst_not_slower_at_center :
  let burst := mkParticle 400 580 0 (-6) 120 120 1 5 0 true in
  let plain := mkParticle 400 580 0 (-6) 120 120 1 5 0 false in
  let s := Rng.mk (fun _ => 0.5) 0 in
  ~ (remainingEnergy (fst (updateN 3 800 100 0 plain s))
     < remainingEnergy (fst (updateN 3 800 100 0 burst s))).
Proof.
  intros burst plain s. rewrite !updateN_remainingEnergy.
  unfold actualEnergyLoss, burst, plain. simpl. lra.
Qed.

(** C4, amended.  Take a burst particle [p] and a plain particle [q] with
    the same spawn distance (not negative) and the same remaining energy, and
    update each through [n] frames at one slider value in [10, 100],
    whatever the random draws.  Then the burst particle never has less
    energy left than the plain one, and the two have the same when the
    distance is 0.  The burst particle has strictly more left after 1 to 360
    frames when the energy they started from is in the factory's range
    [0, 287.3] and the distance is at least 0.000001.  (The difference of
    the two per-frame losses is [baseEnergyLossPerFrame * 0.3 * distance];
    for a distance of about 1e-14 or less the sum [1 + atEdgePenalty] rounds
    to 1 in double arithmetic, and the two losses are then the same
    number.) *)
Theorem burst_decays_no_faster (n : nat) (W ep : R) (frame : nat)
    (p q : FireParticle) (s1 s2 : Rng.t) :
  receivedBurstEnergy p = true -> receivedBurstEnergy q = false ->
  normalizedDistanceFromCenter p = normalizedDistanceFromCenter q ->
  remainingEnergy p = remainingEnergy q ->
  0 <= normalizedDistanceFromCenter q ->
  10 <= ep <= 100 ->
  let p' := fst (updateN n W ep frame p s1) in
  let q' := fst (updateN n W ep frame q s2) in
  remainingEnergy q' <= remainingEnergy p'
  /\ (normalizedDistanceFromCenter q = 0 ->
      remainingEnergy p' = remainingEnergy q')
  /\ ((1 <= n <= 360)%nat -> 0 <= remainingEnergy q <= 287.3 ->
      0.000001 <= normalizedDistanceFromCenter q ->
      remainingEnergy q' < remainingEnergy p').
Proof.
  intros Hp Hq Hnd Hrem Hpos Hep p' q'.
  assert (Hdiff :
    remainingEnergy p' - remainingEnergy q'
    = INR n * (0.8 + (1 - ep / 100) * 1.2)
      * (normalizedDistanceFromCenter q * 0.3)).
  { unfold p', q'. rewrite !updateN_remainingEnergy.
    unfold actualEnergyLoss. rewrite Hp, Hq, Hrem. ring. }
  assert (Hn : 0 <= INR n) by apply pos_INR.
  assert (Hbase : 0.8 <= 0.8 + (1 - ep / 100) * 1.2) by lra.
  split; [| split].
  - assert (0 <= INR n * (0.8 + (1 - ep / 100) * 1.2)) by nra. nra.
  - intros Hz. rewrite Hz in Hdiff. lra.
  - intros [Hn1 _] _ Hnd1.
    assert (1 <= INR n) by (change 1 with (INR 1); apply le_INR; lia).
    assert (0.8 <= INR n * (0.8 + (1 - ep / 100) * 1.2)) by nra. nra.
Qed.

Lemma burst_decays_no_faster_witness :
  let p := mkParticle 407.5 580 0 (-6) 120 120 1 5 0.5 true in
  let q := mkParticle 407.5 580 0 (-6) 120 120 1 5 0.5 false in
  let s := Rng.mk (fun _ => 0.5) 0 in
  let p' := fst (updateN 2 800 100 0 p s) in
  let q' := fst (updateN 2 800 100 0 q s) in
  remainingEnergy q' <= remainingEnergy p'
  /\ remainingEnergy q' < remainingEnergy p'.
Proof.
  intros p q s.
  destruct (burst_decays_no_faster 2 800 100 0 p q s s) as (Hle & _ & Hlt);
    [reflexivity | reflexivity | reflexivity | reflexivity | simpl; lra
    | lra |].
  split; [exact Hle |].
  apply Hlt; [lia | simpl; lra | simpl; lra].
Defined.

(** *** Culling at the bounds *)

Lemma stepParticle_culls_offscreen (W ep : R) (frame : nat)
    (p : FireParticle) (s : Rng.t) :
  let p' := fst (fst (stepParticle W ep frame p s)) in
  outsideMargin W p' ->
  snd (fst (stepParticle W ep frame p s)) = None
  /\ onScreen W p' = false.
Proof.
  intros p' Hout. unfold p' in *. rewrite stepParticle_verdict in *.
  simpl in *.
  destruct (onScreen W (fst (updateParticle W ep frame p s))) eqn:Hon;
    [| split; reflexivity].
  apply onScreen_true in Hon. unfold outsideMargin in Hout. lra.
Qed.

End Step2D.

(** ** The 2D step: the collection *)

Section Collection2D.

Import Fire2D Gaussian.

Lemma keeps_tape_createFireParticle (W H ep : R) (gaussian : R -> R -> M R) :
  (forall m sd, keeps_tape (gaussian m sd)) ->
  keeps_tape (createFireParticle W H ep gaussian).
Proof. intros Hg. unfold createFireParticle. tape_steps. Qed.

Lemma keeps_tape_updateParticle (W ep : R) (frame : nat) (p : FireParticle) :
  keeps_tape (updateParticle W ep frame p).
Proof. unfold updateParticle. tape_steps. Qed.

Lemma keeps_tape_stepParticle (W ep : R) (frame : nat) (p : FireParticle) :
  keeps_tape (stepParticle W ep frame p).
Proof.
  unfold stepParticle. tape_steps.
Qed.

Lemma filterParticles_cons (f : FireParticle -> M (FireParticle * option Draw))
    (p : FireParticle) (rest : list FireParticle) (s : Rng.t) :
  filterParticles f (p :: rest) s
  = let r := f p s in
    let kd := filterParticles f rest (snd r) in
    (match snd (fst r) with
     | Some d => (fst (fst r) :: fst (fst kd), d :: snd (fst kd))
     | None => fst kd
     end, snd kd).
Proof.
  simpl. unfold bind. destruct (f p s) as [[p' d] s1]. simpl.
  destruct (filterParticles f rest s1) as [[kept draws] s2]. simpl.
  destruct d; reflexivity.
Qed.

Lemma keeps_tape_filterParticles
    (f : FireParticle -> M (FireParticle * option Draw)) :
  (forall p, keeps_tape (f p)) ->
  forall ps, keeps_tape (filterParticles f ps).
Proof.
  intros Hf ps. induction ps as [| p rest IH]; intros s.
  - reflexivity.
  - rewrite filterParticles_cons. simpl. rewrite IH. apply Hf.
Qed.

Lemma filterParticles_Forall
    (f : FireParticle -> M (FireParticle * option Draw))
    (Q P : FireParticle -> Prop) (D : Draw -> Prop) :
  (forall p s d, Q p -> snd (fst (f p s)) = Some d ->
                 P (fst (fst (f p s))) /\ D d) ->
  forall ps s, Forall Q ps ->
    Forall P (fst (fst (filterParticles f ps s)))
    /\ Forall D (snd (fst (filterParticles f ps s))).
Proof.
  intros Hf ps. induction ps as [| p rest IH]; intros s HQ.
  - simpl. split; constructor.
  - rewrite filterParticles_cons. inversion HQ as [| ? ? Hp Hrest]; subst.
    destruct (IH (snd (f p s)) Hrest) as [IHk IHd]. simpl.
    destruct (snd (fst (f p s))) as [d |] eqn:Hd; simpl.
    + destruct (Hf p s d Hp Hd). split; constructor; assumption.
    + split; assumption.
Qed.

Lemma filterParticles_length
    (f : FireParticle -> M (FireParticle * option Draw)) :
  forall ps s,
    length (snd (fst (filterParticles f ps s)))
    = length (fst (fst (filterParticles f ps s)))
    /\ (length (fst (fst (filterParticles f ps s))) <= length ps)%nat.
Proof.
  intros ps. induction ps as [| p rest IH]; intros s.
  - simpl. split; reflexivity.
  - rewrite filterParticles_cons. destruct (IH (snd (f p s))) as [IH1 IH2].
    simpl. destruct (snd (fst (f p s))); simpl; lia.
Qed.

Lemma filterParticles_drops_all
    (f : FireParticle -> M (FireParticle * option Draw))
    (Q : FireParticle -> Prop) :
  (forall p s, Q p -> snd (fst (f p s)) = None) ->
  forall ps s, Forall Q ps -> fst (filterParticles f ps s) = ([], []).
Proof.
  intros Hf ps. induction ps as [| p rest IH]; intros s HQ.
  - reflexivity.
  - rewrite filterParticles_cons. inversion HQ as [| ? ? Hp Hrest]; subst.
    simpl. rewrite (Hf p s Hp). apply IH. exact Hrest.
Qed.

Lemma spawnLoop_step (i : nat) (W H ep : R) (live : list FireParticle)
    (s : Rng.t) :
  spawnLoop (S i) W H ep live s
  = if (Z.of_nat (length live) <? particleCountCap ep)%Z
    then spawnLoop i W H ep
           (live ++ [fst (createFireParticle W H ep gaussianRandom s)])
           (snd (createFireParticle W H ep gaussianRandom s))
    else spawnLoop i W H ep live s.
Proof.
  simpl. unfold bind.
  destruct (Z.of_nat (length live) <? particleCountCap ep)%Z.
  - destruct (createFireParticle W H ep gaussianRandom s). reflexivity.
  - reflexivity.
Qed.

Lemma keeps_tape_spawnLoop (i : nat) (W H ep : R) :
  forall live, keeps_tape (spawnLoop i W H ep live).
Proof.
  induction i as [| i IH]; intros live s.
  - reflexivity.
  - rewrite spawnLoop_step.
    destruct (Z.of_nat (length live) <? particleCountCap ep)%Z.
    + rewrite IH. apply keeps_tape_createFireParticle.
      intros; apply keeps_tape_gaussianRandom.
    + apply IH.
Qed.

(** Whatever holds of the collection and of every particle the factory can
    make on the tape at hand holds of the collection after the spawn loop. *)
Lemma spawnLoop_Forall (T : (nat -> R) -> Prop) (Q : FireParticle -> Prop)
    (W H ep : R) :
  (forall s, T (tape s) ->
             Q (fst (createFireParticle W H ep gaussianRandom s))) ->
  forall i live s, T (tape s) -> Forall Q live ->
    Forall Q (fst (spawnLoop i W H ep live s)).
Proof.
  intros Hnew i. induction i as [| i IH]; intros live s HT HQ.
  - exact HQ.
  - rewrite spawnLoop_step.
    destruct (Z.of_nat (length live) <? particleCountCap ep)%Z.
    + apply IH.
      * rewrite keeps_tape_createFireParticle; [exact HT |].
        intros; apply keeps_tape_gaussianRandom.
      * apply Forall_app. split; [exact HQ |].
        constructor; [apply Hnew; exact HT | constructor].
    + apply IH; assumption.
Qed.

Lemma spawnLoop_length_le (W H ep : R) :
  forall i live s,
    (length live <= length (fst (spawnLoop i W H ep live s))
     <= length live + i)%nat.
Proof.
  intros i. induction i as [| i IH]; intros live s.
  - simpl. lia.
  - rewrite spawnLoop_step.
    destruct (Z.of_nat (length live) <? particleCountCap ep)%Z.
    + match goal with
      | |- context [spawnLoop i W H ep ?l ?s'] => specialize (IH l s')
      end.
      rewrite length_app in IH. simpl in IH. lia.
    + specialize (IH live s). lia.
Qed.

Lemma spawnLoop_length_exact (W H ep : R) :
  forall i live s,
    (Z.of_nat (length live) + Z.of_nat i <= particleCountCap ep)%Z ->
    length (fst (spawnLoop i W H ep live s)) = (length live + i)%nat.
Proof.
  intros i. induction i as [| i IH]; intros live s Hcap.
  - simpl. lia.
  - rewrite spawnLoop_step.
    destruct (Z.ltb_spec (Z.of_nat (length live)) (particleCountCap ep));
      [| lia].
    rewrite IH; rewrite length_app; simpl; lia.
Qed.

End Collection2D.

(** ** The 2D step: what the factory hands to the collection *)

Section Fresh2D.

Import Fire2D Gaussian.

Lemma normalized_distance_nonneg (d spread : R) :
  0 <= Math_abs d / Math_max spread 1e-3.
Proof.
  pose proof (floored_spread_positive spread).
  apply Rmult_le_pos; [apply Rabs_pos |].
  left. apply Rinv_0_lt_compat. lra.
Qed.

Lemma initial_energy_nonneg (base bias var : R) :
  0 <= base -> 0 <= var -> 0 <= base * Math_max 0 bias * var.
Proof.
  intros Hb Hv. assert (0 <= Math_max 0 bias) by apply Rmax_l.
  apply Rmult_le_pos; [apply Rmult_le_pos |]; assumption.
Qed.

Lemma createFireParticle_fresh (W H ep : R) (s : Rng.t) :
  10 <= ep -> uniform01 (tape s) ->
  let p := fst (createFireParticle W H ep gaussianRandom s) in
  remainingEnergy p = initialEnergy p /\ 0 <= initialEnergy p
  /\ lifeFraction p = 1 /\ 0 <= normalizedDistanceFromCenter p.
Proof.
  intros Hep Hu.
  unfold createFireParticle, bind.
  pose proof (keeps_tape_gaussianRandom (W / 2)
                (Math_max (40 - ep / 100 * 25) 1e-3) s) as Ht.
  destruct (gaussianRandom (W / 2) (Math_max (40 - ep / 100 * 25) 1e-3) s)
    as [spawnX s1].
  simpl in Ht. unfold uniform01 in Hu. rewrite <- Ht in Hu.
  simpl.
  destruct (ltb (tape s1 (S (cursor s1))) 0.15); simpl;
    match goal with
    | |- context [ltb ?a 0.08] => destruct (ltb a 0.08)
    end; simpl;
    (split; [reflexivity |]; split; [| split; [lra |]];
     [ apply initial_energy_nonneg;
       [ lra
       | match goal with
         | |- context [tape s1 ?k] => pose proof (Hu k)
         end; lra ]
     | apply normalized_distance_nonneg ]).
Qed.

Lemma exp_6_bound : exp 6 <= 729.
Proof.
  replace 6 with (1 + 1 + 1 + 1 + 1 + 1) by lra.
  rewrite !exp_plus. pose proof exp_le_3. pose proof (exp_pos 1).
  assert (exp 1 * exp 1 <= 9) by nra.
  assert (exp 1 * exp 1 * exp 1 <= 27) by nra.
  assert (exp 1 * exp 1 * exp 1 * exp 1 <= 81) by nra.
  assert (exp 1 * exp 1 * exp 1 * exp 1 * exp 1 <= 243) by nra.
  nra.
Qed.

Lemma ln_clamp_bound : ln 1e-12 < -6.
Proof.
  replace (-6) with (- (6)) by lra.
  rewrite <- (ln_exp (- (6))). apply ln_increasing; [lra |].
  rewrite exp_Ropp. pose proof exp_6_bound. pose proof (exp_pos 6).
  apply Rlt_le_trans with (/ 729).
  - lra.
  - apply Rinv_le_contravar; assumption.
Qed.

(** The sample Box-Muller returns when both draws are 0. *)
Lemma box_muller_at_zero_draws : 3.25 <= sqrt (-2.0 * ln (Math_max 0 1e-12)).
Proof.
  unfold Math_max. rewrite Rmax_right by lra.
  pose proof ln_clamp_bound.
  rewrite <- (sqrt_square 3.25) by lra.
  apply sqrt_le_1_alt. lra.
Qed.


Lemma gaussianRandom_zero_tape (mean sd : R) (s : Rng.t) :
  (forall n, tape s n = 0) ->
  fst (gaussianRandom mean sd s)
  = sqrt (-2.0 * ln (Math_max 0 1e-12)) * sd + mean.
Proof.
  intros Hz. unfold gaussianRandom, bind, Math_random, ret. simpl.
  rewrite !Hz. unfold Math_sqrt, Math_log, Math_cos, Math_PI.
  replace (2.0 * PI * 0) with 0 by lra. rewrite cos_0. ring.
Qed.

Lemma createFireParticle_zero_tape (s : Rng.t) :
  (forall n, tape s n = 0) ->
  let p := fst (createFireParticle 800 600 100 gaussianRandom s) in
  initialEnergy p = 0 /\ remainingEnergy p = 0 /\ lifeFraction p = 1
  /\ 0 <= normalizedDistanceFromCenter p.
Proof.
  intros Hz.
  unfold createFireParticle, bind.
  pose proof (keeps_tape_gaussianRandom (800 / 2)
                (Math_max (40 - 100 / 100 * 25) 1e-3) s) as Ht.
  pose proof (gaussianRandom_zero_tape (800 / 2)
                (Math_max (40 - 100 / 100 * 25) 1e-3) s Hz) as Hx.
  destruct (gaussianRandom (800 / 2) (Math_max (40 - 100 / 100 * 25) 1e-3) s)
    as [spawnX s1].
  simpl in Ht, Hx. rewrite <- Ht in Hz. simpl. rewrite !Hz.
  assert (Hb : ltb 0 0.15 = true) by (apply ltb_true; lra).
  assert (Hk : ltb 0 0.08 = true) by (apply ltb_true; lra).
  rewrite Hb. simpl. rewrite ?Hz, Hk. simpl. rewrite ?Hz.
  pose proof box_muller_at_zero_draws as Hbm.
  set (z := sqrt (-2.0 * ln (Math_max 0 1e-12))) in *.
  assert (Hsd : Math_max (40 - 100 / 100 * 25) 1e-3 = 15)
    by (unfold Math_max; rewrite Rmax_left; lra).
  rewrite Hsd in *. subst spawnX.
  assert (Hnd : Math_abs (z * 15 + 800 / 2 - 800 / 2) / 15 = z).
  { unfold Math_abs. replace (z * 15 + 800 / 2 - 800 / 2) with (z * 15) by lra.
    rewrite Rabs_right by lra. field. }
  rewrite Hnd.
  assert (Hbias : Math_max 0 (1 - z * 0.4 + (0.3 + 0 * 0.4)) = 0)
    by (unfold Math_max; rewrite Rmax_left; lra).
  rewrite Hbias. repeat split; try lra.
Qed.

End Fresh2D.

(** ** The 2D step: frames *)

Section Frames2D.

Import Fire2D Gaussian.

Lemma tick_unfold (W H ep : R) (s : Sim) (rng : Rng.t) :
  tick W H ep s rng
  = let sp := spawnPhase W H ep s rng in
    let kd := updatePhase W ep (frameIndex s) (fst sp) (snd sp) in
    ((mkSim (fst (fst kd)) (S (frameIndex s)), snd (fst kd)), snd kd).
Proof.
  unfold tick, bind. destruct (spawnPhase W H ep s rng) as [spawned s1].
  simpl. destruct (updatePhase W ep (frameIndex s) spawned s1) as [kd s2].
  reflexivity.
Qed.

Lemma ticks_S (n : nat) (W H ep : R) (s : Sim) (rng : Rng.t) :
  ticks (S n) W H ep s rng
  = let r := ticks n W H ep s rng in
    let t := tick W H ep (fst r) (snd r) in
    (fst (fst t), snd t).
Proof.
  simpl. unfold bind. destruct (ticks n W H ep s rng) as [s' rng']. simpl.
  destruct (tick W H ep s' rng') as [r rng'']. reflexivity.
Qed.

Lemma culledInTick_unfold (W H ep : R) (s : Sim) (rng : Rng.t) :
  fst (culledInTick W H ep s rng)
  = (length (fst (spawnPhase W H ep s rng))
     - length (liveParticles (fst (fst (tick W H ep s rng)))))%nat.
Proof.
  rewrite tick_unfold. unfold culledInTick, bind.
  destruct (spawnPhase W H ep s rng) as [spawned s1]. simpl.
  destruct (updatePhase W ep (frameIndex s) spawned s1) as [kd s2].
  reflexivity.
Qed.

Lemma keeps_tape_spawnPhase (W H ep : R) (s : Sim) :
  keeps_tape (spawnPhase W H ep s).
Proof. unfold spawnPhase. apply keeps_tape_spawnLoop. Qed.

Lemma keeps_tape_updatePhase (W ep : R) (frame : nat)
    (ps : list FireParticle) :
  keeps_tape (updatePhase W ep frame ps).
Proof.
  unfold updatePhase. apply keeps_tape_filterParticles.
  intros p. apply keeps_tape_stepParticle.
Qed.

Lemma keeps_tape_tick (W H ep : R) (s : Sim) : keeps_tape (tick W H ep s).
Proof.
  intros rng. rewrite tick_unfold. simpl.
  rewrite keeps_tape_updatePhase. apply keeps_tape_spawnPhase.
Qed.

Lemma keeps_tape_ticks (n : nat) (W H ep : R) (s : Sim) :
  keeps_tape (ticks n W H ep s).
Proof.
  induction n as [| n IH]; intros rng.
  - reflexivity.
  - rewrite ticks_S. simpl. rewrite keeps_tape_tick. apply IH.
Qed.

(** A particle that survives the callback satisfies the invariant of the
    data model, provided its energy was bounded by its initial energy. *)
Lemma survivor_is_live (W ep : R) (frame : nat) (p : FireParticle)
    (s : Rng.t) (d : Draw) :
  ep <= 100 -> energyBounded p ->
  snd (fst (stepParticle W ep frame p s)) = Some d ->
  let p' := fst (fst (stepParticle W ep frame p s)) in
  liveInvariant p' /\ energyBounded p'.
Proof.
  intros Hep [Hle Hnd] Hkept. rewrite stepParticle_verdict in *.
  simpl in *.
  destruct (updateParticle_fields W ep frame p s)
    as (Hrem & Hinit & Hlife & Hnd' & _).
  pose proof (actualEnergyLoss_lower_bound ep p Hep Hnd) as Hloss.
  set (p' := fst (updateParticle W ep frame p s)) in *.
  destruct (onScreen W p') eqn:Hon; [| discriminate].
  apply onScreen_true in Hon. destruct Hon as (Hpos & _).
  assert (Hinit_pos : 0 < initialEnergy p) by lra.
  unfold liveInvariant, energyBounded.
  rewrite Hlife, Hinit, Hnd'. unfold lifeFractionOf.
  destruct (Req_dec_T (initialEnergy p) 0) as [Hz | _]; [lra |].
  assert (Hq : 0 < remainingEnergy p' / initialEnergy p < 1).
  { split.
    - apply Rdiv_lt_0_compat; assumption.
    - apply Rmult_lt_reg_r with (initialEnergy p); [assumption |].
      unfold Rdiv. rewrite Rmult_assoc, Rinv_l by lra. lra. }
  unfold Math_max. rewrite Rmax_right by lra. lra.
Qed.

(** A particle whose life fraction is 0 after its update is dropped by the
    callback that computed it. *)
Lemma zero_life_is_culled (W ep : R) (frame : nat) (p : FireParticle)
    (s : Rng.t) :
  ep <= 100 -> energyBounded p ->
  lifeFraction (fst (fst (stepParticle W ep frame p s))) = 0 ->
  snd (fst (stepParticle W ep frame p s)) = None.
Proof.
  intros Hep [Hle Hnd]. rewrite stepParticle_verdict. simpl.
  destruct (updateParticle_fields W ep frame p s)
    as (Hrem & Hinit & Hlife & _).
  pose proof (actualEnergyLoss_lower_bound ep p Hep Hnd) as Hloss.
  set (p' := fst (updateParticle W ep frame p s)) in *.
  intros Hzero.
  destruct (onScreen W p') eqn:Hon; [| reflexivity].
  apply onScreen_true in Hon. destruct Hon as (Hpos & _).
  exfalso. rewrite Hlife in Hzero. unfold lifeFractionOf in Hzero.
  destruct (Req_dec_T (initialEnergy p) 0) as [Hz | Hnz]; [lra |].
  assert (0 < remainingEnergy p' / initialEnergy p)
    by (apply Rdiv_lt_0_compat; lra).
  unfold Math_max in Hzero. rewrite Rmax_right in Hzero by lra. lra.
Qed.

Lemma fresh_is_spawned_ok (W H ep : R) (s : Rng.t) :
  10 <= ep -> uniform01 (tape s) ->
  let p := fst (createFireParticle W H ep gaussianRandom s) in
  spawnedInvariant p /\ energyBounded p.
Proof.
  intros Hep Hu p.
  destruct (createFireParticle_fresh W H ep s Hep Hu) as (Hr & Hi & Hl & Hn).
  fold p in Hr, Hi, Hl, Hn.
  unfold spawnedInvariant, energyBounded. rewrite Hr, Hl. lra.
Qed.

Lemma spawnPhase_spawned_ok (W H ep : R) (s : Sim) (rng : Rng.t) :
  10 <= ep -> uniform01 (tape rng) ->
  Forall (fun p => liveInvariant p /\ energyBounded p) (liveParticles s) ->
  Forall (fun p => spawnedInvariant p /\ energyBounded p)
    (fst (spawnPhase W H ep s rng)).
Proof.
  intros Hep Hu Hlive. unfold spawnPhase.
  apply (spawnLoop_Forall uniform01).
  - intros s0 Hs0. apply fresh_is_spawned_ok; assumption.
  - exact Hu.
  - eapply Forall_impl; [| exact Hlive].
    intros p [[Hpos Hlf] Hb]. split; [split; [lra | exact Hlf] | exact Hb].
Qed.

Lemma tick_keeps_live (W H ep : R) (s : Sim) (rng : Rng.t) :
  10 <= ep <= 100 -> uniform01 (tape rng) ->
  Forall (fun p => liveInvariant p /\ energyBounded p) (liveParticles s) ->
  Forall (fun p => liveInvariant p /\ energyBounded p)
    (liveParticles (fst (fst (tick W H ep s rng)))).
Proof.
  intros Hep Hu Hlive. rewrite tick_unfold. simpl. unfold updatePhase.
  apply (filterParticles_Forall _
           (fun p => spawnedInvariant p /\ energyBounded p)
           (fun p => liveInvariant p /\ energyBounded p)
           (fun _ => True)).
  - intros p s0 d [_ Hb] Hd. split; [| exact I].
    apply (survivor_is_live W ep (frameIndex s) p s0 d); [lra | exact Hb | exact Hd].
  - apply spawnPhase_spawned_ok; [lra | exact Hu | exact Hlive].
Qed.

Lemma ticks_keep_live (n : nat) (W H ep : R) (rng : Rng.t) :
  10 <= ep <= 100 -> uniform01 (tape rng) ->
  Forall (fun p => liveInvariant p /\ energyBounded p)
    (liveParticles (fst (ticks n W H ep initialSim rng))).
Proof.
  intros Hep Hu. induction n as [| n IH].
  - simpl. constructor.
  - rewrite ticks_S. simpl. apply tick_keeps_live; [exact Hep | | exact IH].
    rewrite keeps_tape_ticks. exact Hu.
Qed.

(** *** The invariant of the data model *)

Lemma spawnPhase_at_100_from_empty (W H : R) (s : Sim) (rng : Rng.t) :
  (length (liveParticles s) + 15 <= 700)%nat ->
  length (fst (spawnPhase W H 100 s rng)) = (length (liveParticles s) + 15)%nat.
Proof.
  intros Hroom. unfold spawnPhase. rewrite spawnPerFrame_at_100.
  change (Z.to_nat 15) with 15%nat.
  apply spawnLoop_length_exact. rewrite particleCountCap_at_100. lia.
Qed.

Lemma zero_tape_spawns_dead (rng : Rng.t) :
  (forall n, tape rng n = 0) ->
  Forall (fun p => remainingEnergy p = 0 /\ energyBounded p)
    (fst (spawnPhase 800 600 100 initialSim rng)).
Proof.
  intros Hz. unfold spawnPhase.
  apply (spawnLoop_Forall (fun t => forall n, t n = 0)).
  - intros s Hs.
    destruct (createFireParticle_zero_tape s Hs) as (Hi & Hr & _ & Hn).
    unfold energyBounded. rewrite Hi, Hr. split; [reflexivity |].
    split; [lra | exact Hn].
  - exact Hz.
  - constructor.
Qed.

(** C1, as the claim states it, fails between the spawn loop and the filter
    of a frame: at slider value 100 on an 800 x 600 canvas, when every draw
    of the random source is 0, the collection after the spawn loop of the
    first frame holds particles whose remaining energy is 0. *)
Lemma spawned_particle_without_energy :
  let rng := Rng.mk (fun _ => 0) 0 in
  let spawned := fst (spawnPhase 800 600 100 initialSim rng) in
  length spawned = 15%nat
  /\ Forall (fun p => remainingEnergy p = 0) spawned
  /\ ~ Forall liveInvariant spawned.
Proof.
  intros rng spawned.
  assert (Hdead : Forall (fun p => remainingEnergy p = 0 /\ energyBounded p)
                    spawned)
    by (apply zero_tape_spawns_dead; reflexivity).
  assert (Hlen : length spawned = 15%nat)
    by (apply (spawnPhase_at_100_from_empty 800 600 initialSim rng);
        simpl; lia).
  split; [exact Hlen |]. split.
  - eapply Forall_impl; [| exact Hdead]. intros p [Hp _]. exact Hp.
  - intros Hall. destruct spawned as [| p rest]; [discriminate |].
    inversion Hall as [| ? ? [Hpos _] _]; subst.
    inversion Hdead as [| ? ? [Hzero _] _]; subst.
    lra.
Qed.

(** C1, amended.  Run any number of frames from the empty collection at one
    slider value in [10, 100], on any tape of draws in [0, 1).  Between
    frames every particle of the collection has [remainingEnergy > 0] and
    [lifeFraction] in [0, 1].  After the spawn loop of the next frame every
    particle has [remainingEnergy >= 0] and [lifeFraction] in [0, 1] (a
    particle just made can have no energy at all).  And a particle of that
    collection whose life fraction is 0 after its update is dropped by the
    filter callback of the same frame. *)
Theorem live_invariant_between_frames (n : nat) (W H ep : R) (rng : Rng.t) :
  10 <= ep <= 100 -> uniform01 (tape rng) ->
  let s := fst (ticks n W H ep initialSim rng) in
  let rng1 := snd (ticks n W H ep initialSim rng) in
  let spawned := fst (spawnPhase W H ep s rng1) in
  Forall liveInvariant (liveParticles s)
  /\ Forall spawnedInvariant spawned
  /\ (forall p rng',
        In p spawned ->
        lifeFraction (fst (fst (stepParticle W ep (frameIndex s) p rng'))) = 0 ->
        snd (fst (stepParticle W ep (frameIndex s) p rng')) = None).
Proof.
  intros Hep Hu s rng1 spawned.
  pose proof (ticks_keep_live n W H ep rng Hep Hu) as Hlive. fold s in Hlive.
  assert (Hsp : Forall (fun p => spawnedInvariant p /\ energyBounded p) spawned).
  { apply spawnPhase_spawned_ok; [lra | | exact Hlive].
    unfold rng1. rewrite keeps_tape_ticks. exact Hu. }
  split; [| split].
  - eapply Forall_impl; [| exact Hlive]. intros p [Hp _]. exact Hp.
  - eapply Forall_impl; [| exact Hsp]. intros p [Hp _]. exact Hp.
  - intros p rng' Hin Hzero. rewrite Forall_forall in Hsp.
    destruct (Hsp p Hin) as [_ Hb].
    apply zero_life_is_culled; [lra | exact Hb | exact Hzero].
Qed.

Lemma live_invariant_between_frames_witness :
  let rng := Rng.mk (fun _ => 0) 0 in
  let s := fst (ticks 2 800 600 100 initialSim rng) in
  let rng1 := snd (ticks 2 800 600 100 initialSim rng) in
  let spawned := fst (spawnPhase 800 600 100 s rng1) in
  Forall liveInvariant (liveParticles s)
  /\ Forall spawnedInvariant spawned
  /\ (forall p rng',
        In p spawned ->
        lifeFraction (fst (fst (stepParticle 800 100 (frameIndex s) p rng'))) = 0 ->
        snd (fst (stepParticle 800 100 (frameIndex s) p rng')) = None).
Proof.
  intros rng.
  apply (live_invariant_between_frames 2 800 600 100 rng).
  - lra.
  - intros k. simpl. lra.
Defined.

(** *** Population in the first frames *)

Lemma dead_particle_is_dropped (W ep : R) (frame : nat) (p : FireParticle)
    (s : Rng.t) :
  ep <= 100 -> remainingEnergy p = 0 /\ energyBounded p ->
  snd (fst (stepParticle W ep frame p s)) = None.
Proof.
  intros Hep [Hzero [_ Hnd]]. rewrite stepParticle_verdict. simpl.
  destruct (updateParticle_fields W ep frame p s) as (Hrem & _).
  pose proof (actualEnergyLoss_lower_bound ep p Hep Hnd) as Hloss.
  destruct (onScreen W (fst (updateParticle W ep frame p s))) eqn:Hon;
    [| reflexivity].
  apply onScreen_true in Hon. lra.
Qed.

(** C5, as the claim states it, fails already in the first frame: at slider
    value 100 on an 800 x 600 canvas, when every draw of the random source
    is 0, each of the 15 particles spawned in the first frame is culled in
    that same frame, and the population after frame 1 is 0, not 15. *)
Lemma first_frame_population_not_15 :
  let rng := Rng.mk (fun _ => 0) 0 in
  length (liveParticles (fst (ticks 1 800 600 100 initialSim rng)))
  <> (1 * 15)%nat.
Proof.
  intros rng. rewrite ticks_S. simpl fst. simpl snd.
  rewrite tick_unfold. simpl. unfold updatePhase.
  rewrite (filterParticles_drops_all _
             (fun p => remainingEnergy p = 0 /\ energyBounded p)).
  - simpl. lia.
  - intros p s Hp. apply dead_particle_is_dropped; [lra | exact Hp].
  - apply zero_tape_spawns_dead. reflexivity.
Qed.

Lemma tick_length (W H ep : R) (s : Sim) (rng : Rng.t) :
  (length (liveParticles (fst (fst (tick W H ep s rng))))
   <= length (fst (spawnPhase W H ep s rng)))%nat.
Proof.
  rewrite tick_unfold. simpl. unfold updatePhase.
  apply filterParticles_length.
Qed.

(** From the empty collection at slider value 100, while the cap is out of
    reach, every particle spawned so far is either in the collection or was
    dropped by a filter. *)
Lemma population_accounting (n : nat) (W H : R) (rng : Rng.t) :
  (n <= 46)%nat ->
  (length (liveParticles (fst (ticks n W H 100 initialSim rng)))
   + deaths n W H 100 initialSim rng = 15 * n)%nat.
Proof.
  induction n as [| n IH]; intros Hn.
  - reflexivity.
  - assert (Hn' : (n <= 46)%nat) by lia. specialize (IH Hn').
    rewrite ticks_S. simpl fst.
    change (deaths (S n) W H 100 initialSim rng)
      with (let (s', rng') := ticks n W H 100 initialSim rng in
            (deaths n W H 100 initialSim rng
             + fst (culledInTick W H 100 s' rng'))%nat).
    destruct (ticks n W H 100 initialSim rng) as [s' rng'] eqn:Hticks.
    simpl fst in *. simpl snd.
    rewrite culledInTick_unfold.
    pose proof (tick_length W H 100 s' rng') as Hle.
    rewrite spawnPhase_at_100_from_empty in * by lia.
    lia.
Qed.

(** C5, amended.  From the empty collection at slider value 100, for every
    [n <= 46] the population after frame [n] is [15 * n] minus the number of
    particles the filters of those frames dropped: the spawn loop adds
    exactly 15 particles in each of these frames, so the population is at
    most [15 * n], and is [15 * n] when nothing was dropped.  (A particle
    can be dropped in the frame that spawned it.) *)
Theorem population_is_spawned_minus_culled (n : nat) (W H : R) (rng : Rng.t) :
  (n <= 46)%nat ->
  let population :=
    length (liveParticles (fst (ticks n W H 100 initialSim rng))) in
  let dropped := deaths n W H 100 initialSim rng in
  (population + dropped = 15 * n)%nat
  /\ (population <= 15 * n)%nat
  /\ (dropped = 0%nat -> population = (15 * n)%nat).
Proof.
  intros Hn population dropped.
  pose proof (population_accounting n W H rng Hn) as Hsum.
  fold population dropped in Hsum.
  split; [exact Hsum |]. split; [lia |]. intros Hz. lia.
Qed.

Lemma population_is_spawned_minus_culled_witness :
  let rng := Rng.mk (fun _ => 0) 0 in
  let population :=
    length (liveParticles (fst (ticks 3 800 600 100 initialSim rng))) in
  let dropped := deaths 3 800 600 100 initialSim rng in
  (population + dropped = 15 * 3)%nat
  /\ (population <= 15 * 3)%nat
  /\ (dropped = 0%nat -> population = (15 * 3)%nat).
Proof.
  intros rng.
  apply (population_is_spawned_minus_culled 3 800 600 rng). lia.
Defined.

(** *** Culling at the bounds *)

(** C8.  In the [filter] callback of a frame, a particle whose updated
    position fails the bounds test ([positionY > -30], [positionX > -30],
    [positionX < canvasWidthPx + 30]) makes the callback return [false]
    before anything is drawn, whatever its life fraction.  So for every
    frame, such a particle is not in the collection the frame leaves, every
    particle the frame keeps passes the bounds test, and every disc the
    frame draws is centred inside the margin. *)
Theorem offscreen_particle_is_culled (W H ep : R) (frame : nat)
    (p : FireParticle) (s : Rng.t) (sim : Sim) (rng : Rng.t) :
  let p' := fst (fst (stepParticle W ep frame p s)) in
  outsideMargin W p' ->
  let out := fst (tick W H ep sim rng) in
  snd (fst (stepParticle W ep frame p s)) = None
  /\ ~ In p' (liveParticles (fst out))
  /\ Forall (fun q => ~ outsideMargin W q) (liveParticles (fst out))
  /\ Forall (fun d => -30 < drawY d /\ -30 < drawX d < W + 30) (snd out).
Proof.
  intros p' Hout out.
  assert (Hall :
    Forall (fun q => ~ outsideMargin W q) (liveParticles (fst out))
    /\ Forall (fun d => -30 < drawY d /\ -30 < drawX d < W + 30) (snd out)).
  { unfold out. rewrite tick_unfold. simpl. unfold updatePhase.
    apply (filterParticles_Forall _ (fun _ => True)); [| apply Forall_forall; auto].
    intros q s0 d _ Hd. rewrite stepParticle_verdict in *. simpl in *.
    destruct (onScreen W (fst (updateParticle W ep (frameIndex sim) q s0)))
      eqn:Hon; [| discriminate].
    apply onScreen_true in Hon. injection Hd as <-. simpl.
    unfold outsideMargin. split; lra. }
  destruct Hall as [Hkept Hdraws].
  split; [apply stepParticle_culls_offscreen; exact Hout |].
  split; [| split; assumption].
  intros Hin. rewrite Forall_forall in Hkept. exact (Hkept p' Hin Hout).
Qed.

Lemma offscreen_particle_is_culled_witness :
  let p := mkParticle (-100) 300 0 0 100 100 1 5 0 true in
  let s := Rng.mk (fun _ => 0.5) 0 in
  let p' := fst (fst (stepParticle 800 100 0 p s)) in
  let out := fst (tick 800 600 100 initialSim s) in
  (outsideMargin 800 p' /\ 0 < lifeFraction p')
  /\ snd (fst (stepParticle 800 100 0 p s)) = None
  /\ ~ In p' (liveParticles (fst out))
  /\ Forall (fun q => ~ outsideMargin 800 q) (liveParticles (fst out))
  /\ Forall (fun d => -30 < drawY d /\ -30 < drawX d < 800 + 30) (snd out).
Proof.
  intros p s p' out.
  assert (Hspike : ltb 0.5 0.02 = false) by (apply ltb_false; lra).
  assert (Hp' : positionX p' = -100 + 0.25
                /\ lifeFraction p' = Math_max 0 (99.2 / 100)).
  { unfold p'. rewrite stepParticle_verdict. simpl.
    unfold updateParticle, bind, Math_random. simpl. rewrite Hspike. simpl.
    unfold actualEnergyLoss, lifeFractionOf. simpl.
    destruct (Req_dec_T 100 0) as [Hbad | _]; [lra |].
    split; [lra | f_equal; lra]. }
  destruct Hp' as [Hx Hl].
  assert (Hout : outsideMargin 800 p') by (right; left; lra).
  split.
  - split; [exact Hout |]. rewrite Hl. unfold Math_max.
    rewrite Rmax_right by lra. lra.
  - exact (offscreen_particle_is_culled 800 600 100 0 p s initialSim s Hout).
Defined.

(** *** A run in which nothing is dropped *)

Lemma filterParticles_keeps_all
    (f : FireParticle -> M (FireParticle * option Draw))
    (T : (nat -> R) -> Prop) (Q : FireParticle -> Prop) :
  (forall p, keeps_tape (f p)) ->
  (forall p s, T (tape s) -> Q p -> snd (fst (f p s)) <> None) ->
  forall ps s, T (tape s) -> Forall Q ps ->
    length (fst (fst (filterParticles f ps s))) = length ps.
Proof.
  intros Hk Hf ps. induction ps as [| p rest IH]; intros s HT HQ.
  - reflexivity.
  - rewrite filterParticles_cons. inversion HQ as [| ? ? Hp Hrest]; subst.
    simpl. specialize (Hf p s HT Hp).
    destruct (snd (fst (f p s))); [| congruence].
    simpl. rewrite IH; [reflexivity | rewrite Hk; exact HT | exact Hrest].
Qed.

Lemma box_muller_at_half_draws : 0 <= sqrt (-2.0 * ln 0.5) <= 2.
Proof.
  split; [apply sqrt_pos |].
  assert (Hln : ln 2 < 2).
  { rewrite <- (ln_exp 2) at 2. apply ln_increasing; [lra |].
    pose proof (exp_ineq1 2). lra. }
  replace 0.5 with (/ 2) by lra. rewrite ln_Rinv by lra.
  rewrite <- (sqrt_square 2) at 2 by lra.
  apply sqrt_le_1_alt. lra.
Qed.

Lemma createFireParticle_half_tape (s : Rng.t) :
  (forall n, tape s n = 0.5) ->
  halfTapeParticle (fst (createFireParticle 800 600 100 gaussianRandom s)).
Proof.
  intros Hh.
  unfold createFireParticle, bind.
  pose proof (keeps_tape_gaussianRandom (800 / 2)
                (Math_max (40 - 100 / 100 * 25) 1e-3) s) as Ht.
  assert (Hx : fst (gaussianRandom (800 / 2)
                      (Math_max (40 - 100 / 100 * 25) 1e-3) s)
               = - sqrt (-2.0 * ln 0.5) * 15 + 400).
  { unfold gaussianRandom, bind, Math_random, ret. simpl. rewrite !Hh.
    unfold Math_sqrt, Math_log, Math_cos, Math_PI, Math_max.
    rewrite !Rmax_left by lra.
    replace (2.0 * PI * 0.5) with PI by lra. rewrite cos_PI. lra. }
  destruct (gaussianRandom (800 / 2) (Math_max (40 - 100 / 100 * 25) 1e-3) s)
    as [spawnX s1].
  simpl in Ht, Hx. rewrite <- Ht in Hh. simpl. rewrite ?Hh.
  assert (Hb : ltb 0.5 0.15 = false) by (apply ltb_false; lra).
  assert (Hk : ltb 0.5 0.08 = false) by (apply ltb_false; lra).
  rewrite Hb. simpl. rewrite ?Hh, Hk. simpl. rewrite ?Hh.
  pose proof box_muller_at_half_draws as Hz.
  set (z := sqrt (-2.0 * ln 0.5)) in *.
  assert (Hsd : Math_max (40 - 100 / 100 * 25) 1e-3 = 15)
    by (unfold Math_max; rewrite Rmax_left; lra).
  rewrite Hsd. subst spawnX.
  assert (Hnd : Math_abs (- z * 15 + 400 - 800 / 2) / 15 = z).
  { unfold Math_abs. replace (- z * 15 + 400 - 800 / 2) with (- (z * 15)) by lra.
    rewrite Rabs_Ropp, Rabs_right by lra. field. }
  assert (Hbias : Math_max 0 (1 - z * 0.4 + 0) = 1 - z * 0.4)
    by (unfold Math_max; rewrite Rmax_right; lra).
  unfold halfTapeParticle. simpl. rewrite Hnd, Hbias.
  repeat split; try lra.
  apply ltb_false. lra.
Qed.

Lemma half_tape_particle_survives (frame : nat) (p : FireParticle)
    (s : Rng.t) :
  (forall n, tape s n = 0.5) -> halfTapeParticle p ->
  snd (fst (stepParticle 800 100 frame p s)) <> None.
Proof.
  intros Hh (Hx & Hy & Hvx & Hvy & Hb & Hnd & Hrem).
  rewrite stepParticle_verdict. simpl.
  assert (Hon : onScreen 800 (fst (updateParticle 800 100 frame p s)) = true).
  { apply onScreen_true.
    destruct (updateParticle_fields 800 100 frame p s) as (Hr & _).
    rewrite Hr. unfold actualEnergyLoss. rewrite Hb.
    unfold updateParticle, bind, Math_random. simpl. rewrite !Hh.
    assert (Hspike : ltb 0.5 0.02 = false) by (apply ltb_false; lra).
    rewrite Hspike. simpl. rewrite Hb, Hvx, Hvy, Hy.
    set (noise := Math_sin (INR frame * 0.04 + positionX p * 0.02)).
    repeat split; nra. }
  rewrite Hon. discriminate.
Qed.

(** With every draw 0.5 the first frame keeps all 15 particles it spawns:
    the population after frame 1 is 15 and nothing was dropped. *)
Example first_frame_population_15_when_none_dropped :
  let rng := Rng.mk (fun _ => 0.5) 0 in
  length (liveParticles (fst (ticks 1 800 600 100 initialSim rng))) = 15%nat
  /\ deaths 1 800 600 100 initialSim rng = 0%nat.
Proof.
  intros rng.
  assert (Hlen :
    length (liveParticles (fst (ticks 1 800 600 100 initialSim rng)))
    = 15%nat).
  { rewrite ticks_S. simpl fst. simpl snd. rewrite tick_unfold. simpl.
    unfold updatePhase.
    rewrite (filterParticles_keeps_all _ (fun t => forall n, t n = 0.5)
               halfTapeParticle).
    - apply (spawnPhase_at_100_from_empty 800 600 initialSim rng). simpl. lia.
    - intros p. apply keeps_tape_stepParticle.
    - intros p s Hs Hp. apply half_tape_particle_survives; assumption.
    - rewrite keeps_tape_spawnPhase. reflexivity.
    - unfold spawnPhase.
      apply (spawnLoop_Forall (fun t => forall n, t n = 0.5));
        [intros s Hs; apply createFireParticle_half_tape; exact Hs
        | reflexivity | constructor]. }
  split; [exact Hlen |].
  pose proof (population_accounting 1 800 600 rng) as Hsum.
  rewrite Hlen in Hsum. lia.
Qed.

End Frames2D.

(** ** The 3D frame: spawn guard and buffers *)

Section Frames3D.

Import Fire3D Gaussian.

Lemma store_length (buf : list R) :
  forall i v, length (store buf i v) = length buf.
Proof.
  induction buf as [| a rest IH]; intros [| i] v; simpl; auto.
Qed.

Lemma nth_error_store_same (buf : list R) :
  forall i v, (i < length buf)%nat -> nth_error (store buf i v) i = Some v.
Proof.
  induction buf as [| a rest IH]; intros [| i] v Hi; simpl in *; try lia; auto.
  apply IH. lia.
Qed.

Lemma nth_error_store_other (buf : list R) :
  forall i j v, i <> j -> nth_error (store buf i v) j = nth_error buf j.
Proof.
  induction buf as [| a rest IH]; intros [| i] [| j] v Hij; simpl; auto;
    try congruence.
Qed.

(** Three consecutive stores at offset [o]: what the buffer holds after. *)
Lemma store3_spec (buf : list R) (o : nat) (a b c : R) :
  let buf' := store (store (store buf o a) (o + 1) b) (o + 2) c in
  length buf' = length buf
  /\ (forall j, (j < o)%nat -> nth_error buf' j = nth_error buf j)
  /\ ((o + 2 < length buf)%nat ->
      nth_error buf' o = Some a /\ nth_error buf' (o + 1) = Some b
      /\ nth_error buf' (o + 2) = Some c).
Proof.
  intros buf'. unfold buf'. split; [| split].
  - rewrite !store_length. reflexivity.
  - intros j Hj. rewrite !nth_error_store_other by lia. reflexivity.
  - intros Hin. split; [| split].
    + rewrite !nth_error_store_other by lia.
      apply nth_error_store_same. lia.
    + rewrite nth_error_store_other by lia.
      apply nth_error_store_same. rewrite store_length. lia.
    + apply nth_error_store_same. rewrite !store_length. lia.
Qed.

Lemma stepParticle3_some (e ramp dt time : R) (p p' : Particle)
    (bufs bufs' : Buffers) :
  stepParticle e ramp dt time p bufs = Some (p', bufs') ->
  let i := particleIndex bufs in
  particleIndex bufs' = S i
  /\ positions bufs'
     = store (store (store (positions bufs)
         (i * 3) (THREE.x (position p')))
         (i * 3 + 1) (THREE.y (position p')))
         (i * 3 + 2) (THREE.z (position p'))
  /\ colors bufs'
     = store (store (store (colors bufs)
         (i * 3) (THREE.r (color p')))
         (i * 3 + 1) (THREE.g (color p')))
         (i * 3 + 2) (THREE.b (color p')).
Proof.
  unfold stepParticle. destruct (leb (life p - dt) 0); [discriminate |].
  intros Heq. injection Heq as <- <-. simpl. auto.
Qed.

(** The 3D callback drops a particle on its life alone: it has no bounds
    test. *)
Lemma stepParticle3_verdict (e ramp dt time : R) (p : Particle)
    (bufs : Buffers) :
  stepParticle e ramp dt time p bufs = None <-> life p - dt <= 0.
Proof.
  unfold stepParticle. destruct (leb (life p - dt) 0) eqn:Hl.
  - apply leb_true in Hl. tauto.
  - apply leb_false in Hl. split; [discriminate | lra].
Qed.

Lemma filterParticles3_spec (e ramp dt time : R) (ps : list Particle) :
  forall bufs,
    let out := filterParticles e ramp dt time ps bufs in
    let i := particleIndex bufs in
    particleIndex (snd out) = (i + length (fst out))%nat
    /\ (length (fst out) <= length ps)%nat
    /\ length (positions (snd out)) = length (positions bufs)
    /\ length (colors (snd out)) = length (colors bufs)
    /\ (forall j, (j < i * 3)%nat ->
          nth_error (positions (snd out)) j = nth_error (positions bufs) j
          /\ nth_error (colors (snd out)) j = nth_error (colors bufs) j)
    /\ (((i + length (fst out)) * 3 <= length (positions bufs))%nat ->
        ((i + length (fst out)) * 3 <= length (colors bufs))%nat ->
        forall k q, nth_error (fst out) k = Some q ->
          writtenAt (positions (snd out)) (colors (snd out)) (i + k) q).
Proof.
  induction ps as [| p rest IH]; intros bufs out i.
  - unfold out. simpl.
    split; [lia |]. split; [lia |]. split; [reflexivity |].
    split; [reflexivity |]. split; [intros; split; reflexivity |].
    intros _ _ [| k] q Hk; discriminate.
  - unfold out. simpl.
    destruct (stepParticle e ramp dt time p bufs) as [[p' bufs'] |] eqn:Hstep.
    + destruct (stepParticle3_some _ _ _ _ _ _ _ _ Hstep) as (Hidx & Hpos & Hcol).
      fold i in Hidx, Hpos, Hcol.
      specialize (IH bufs').
      destruct (filterParticles e ramp dt time rest bufs') as [kept bufs''].
      simpl in *.
      destruct IH as (IHidx & IHlen & IHlp & IHlc & IHframe & IHdata).
      destruct (store3_spec (positions bufs) (i * 3)
                  (THREE.x (position p')) (THREE.y (position p'))
                  (THREE.z (position p'))) as (Lp & Fp & Dp).
      destruct (store3_spec (colors bufs) (i * 3)
                  (THREE.r (color p')) (THREE.g (color p'))
                  (THREE.b (color p'))) as (Lc & Fc & Dc).
      rewrite <- Hpos in Lp, Fp, Dp. rewrite <- Hcol in Lc, Fc, Dc.
      rewrite Hidx in *.
      split; [lia |]. split; [lia |]. split; [congruence |].
      split; [congruence |]. split.
      * intros j Hj. destruct (IHframe j) as [E1 E2]; [lia |].
        rewrite E1, E2. split; [apply Fp | apply Fc]; lia.
      * intros Hbp Hbc [| k] q Hk.
        -- simpl in Hk. injection Hk as <-.
           replace (i + 0)%nat with i by lia.
           destruct Dp as (D1 & D2 & D3); [lia |].
           destruct Dc as (D4 & D5 & D6); [lia |].
           unfold writtenAt.
           destruct (IHframe (i * 3)%nat) as [E1 E1']; [lia |].
           destruct (IHframe (i * 3 + 1)%nat) as [E2 E2']; [lia |].
           destruct (IHframe (i * 3 + 2)%nat) as [E3 E3']; [lia |].
           rewrite E1, E2, E3, E1', E2', E3'. auto 6.
        -- simpl in Hk.
           replace (i + S k)%nat with (S i + k)%nat by lia.
           apply IHdata; try assumption; lia.
    + specialize (IH bufs).
      destruct (filterParticles e ramp dt time rest bufs) as [kept bufs''].
      simpl in *. fold i in IH.
      destruct IH as (IHidx & IHlen & IHlp & IHlc & IHframe & IHdata).
      split; [lia |]. split; [lia |]. split; [assumption |].
      split; [assumption |]. split; assumption.
Qed.

Lemma spawnLoop3_step (i : nat) (e : R) (live : list Particle) (s : Rng.t) :
  spawnLoop (S i) e live s
  = if (Z.of_nat (length live) <? particleCap e)%Z
       && (length live <? MAX_PARTICLES)%nat
    then spawnLoop i e (live ++ [fst (spawnParticle e s)])
           (snd (spawnParticle e s))
    else spawnLoop i e live s.
Proof.
  cbn [spawnLoop]. unfold bind.
  destruct ((Z.of_nat (length live) <? particleCap e)%Z
            && (length live <? MAX_PARTICLES)%nat).
  - destruct (spawnParticle e s). reflexivity.
  - reflexivity.
Qed.

(** The spawn loop never takes the collection past [MAX_PARTICLES], nor
    past the energy-dependent cap. *)
Lemma spawnLoop3_bounds (e : R) :
  forall i live s,
    let spawned := fst (spawnLoop i e live s) in
    (length live <= length spawned)%nat
    /\ ((length live <= MAX_PARTICLES)%nat ->
        (length spawned <= MAX_PARTICLES)%nat)
    /\ (Z.of_nat (length spawned)
        <= Z.max (Z.of_nat (length live)) (particleCap e))%Z.
Proof.
  intros i. induction i as [| i IH]; intros live s spawned.
  - unfold spawned. simpl. lia.
  - unfold spawned. rewrite spawnLoop3_step.
    destruct (Z.ltb_spec (Z.of_nat (length live)) (particleCap e)) as [Hc | Hc];
      destruct (Nat.ltb_spec (length live) MAX_PARTICLES) as [Hm | Hm]; simpl;
      try (specialize (IH live s); simpl in IH; lia).
    match goal with
    | |- context [spawnLoop i e ?l ?s'] => specialize (IH l s')
    end.
    simpl in IH. rewrite length_app in IH. simpl in IH. lia.
Qed.

(** Once the collection holds [MAX_PARTICLES] particles nothing is added. *)
Lemma spawnLoop3_full (e : R) :
  forall i live s,
    (MAX_PARTICLES <= length live)%nat -> fst (spawnLoop i e live s) = live.
Proof.
  intros i. induction i as [| i IH]; intros live s Hfull.
  - reflexivity.
  - rewrite spawnLoop3_step.
    destruct (Nat.ltb_spec (length live) MAX_PARTICLES) as [Hm | Hm]; [lia |].
    rewrite andb_false_r. apply IH. exact Hfull.
Qed.

Lemma useFrame_skipped (f : Frame) (s : Scene) (rng : Rng.t) :
  refsReady f = false -> useFrame f s rng = (s, rng).
Proof. intros Hr. unfold useFrame. rewrite Hr. reflexivity. Qed.

Lemma useFrame_ready (f : Frame) (s : Scene) (rng : Rng.t) :
  refsReady f = true ->
  useFrame f s rng
  = let e := energyPercent f / 100.0 in
    let sp := spawnLoop (Z.to_nat (spawnRate e)) e (liveParticles s) rng in
    let out :=
      filterParticles e (Math_pow e 2.0) (delta f) (elapsedTime f) (fst sp)
        (mkBuffers (positionBuffer s) (colorBuffer s) 0) in
    (mkScene (fst out) (positions (snd out)) (colors (snd out))
       (Some (particleIndex (snd out))), snd sp).
Proof.
  intros Hr. unfold useFrame, bind. rewrite Hr. simpl.
  destruct (spawnLoop _ _ (liveParticles s) rng) as [spawned rng1]. simpl.
  destruct (filterParticles _ _ _ _ spawned _) as [kept bufs]. reflexivity.
Qed.

(** What a frame that runs leaves behind. *)
Lemma useFrame_ready_spec (f : Frame) (s : Scene) (rng : Rng.t) :
  refsReady f = true -> sceneInvariant s ->
  let s' := fst (useFrame f s rng) in
  sceneInvariant s'
  /\ drawRangeCount s' = Some (length (liveParticles s'))
  /\ (forall k q, nth_error (liveParticles s') k = Some q ->
        (k < MAX_PARTICLES)%nat
        /\ (k * 3 + 2 < length (positionBuffer s'))%nat
        /\ (k * 3 + 2 < length (colorBuffer s'))%nat
        /\ writtenAt (positionBuffer s') (colorBuffer s') k q).
Proof.
  intros Hr (Hlive & Hpos & Hcol & _) s'. unfold s'.
  rewrite useFrame_ready by exact Hr. cbv zeta.
  cbn [fst liveParticles positionBuffer colorBuffer drawRangeCount].
  set (e := energyPercent f / 100.0).
  destruct (spawnLoop3_bounds e (Z.to_nat (spawnRate e)) (liveParticles s) rng)
    as (_ & Hmax & _).
  specialize (Hmax Hlive).
  set (spawned := fst (spawnLoop (Z.to_nat (spawnRate e)) e (liveParticles s) rng))
    in *.
  destruct (filterParticles3_spec e (Math_pow e 2.0) (delta f) (elapsedTime f)
              spawned (mkBuffers (positionBuffer s) (colorBuffer s) 0))
    as (Hidx & Hlen & Hlp & Hlc & _ & Hdata).
  cbn [particleIndex positions colors Nat.add Nat.mul] in Hidx, Hlp, Hlc, Hdata.
  set (out := filterParticles e (Math_pow e 2.0) (delta f) (elapsedTime f)
                spawned (mkBuffers (positionBuffer s) (colorBuffer s) 0)) in *.
  assert (Hkept : (length (fst out) <= MAX_PARTICLES)%nat) by lia.
  split; [| split].
  - unfold sceneInvariant.
    cbn [liveParticles positionBuffer colorBuffer drawRangeCount].
    rewrite Hidx, Hlp, Hlc. auto.
  - rewrite Hidx. reflexivity.
  - intros k q Hk.
    assert (Hlt : (k < length (fst out))%nat)
      by (apply nth_error_Some; congruence).
    rewrite Hlp, Hlc, Hpos, Hcol.
    split; [lia |]. split; [lia |]. split; [lia |].
    apply (Hdata ltac:(lia) ltac:(lia) k q Hk).
Qed.

Lemma useFrame_keeps_invariant (f : Frame) (s : Scene) (rng : Rng.t) :
  sceneInvariant s -> sceneInvariant (fst (useFrame f s rng)).
Proof.
  intros Hs. destruct (refsReady f) eqn:Hr.
  - apply useFrame_ready_spec; assumption.
  - rewrite useFrame_skipped by exact Hr. exact Hs.
Qed.

Lemma frames_keep_invariant (fs : list Frame) :
  forall s rng, sceneInvariant s -> sceneInvariant (fst (frames fs s rng)).
Proof.
  induction fs as [| f rest IH]; intros s rng Hs.
  - exact Hs.
  - simpl. unfold bind.
    pose proof (useFrame_keeps_invariant f s rng Hs) as Hs'.
    destruct (useFrame f s rng) as [s' rng']. apply IH. exact Hs'.
Qed.

Lemma initialScene_invariant : sceneInvariant initialScene.
Proof.
  unfold sceneInvariant, initialScene, newFloat32Array.
  cbn [liveParticles positionBuffer colorBuffer drawRangeCount].
  rewrite repeat_length. cbn [length]. repeat split; auto. lia.
Qed.

(** C10.  After any run of frames from the mounted component, in the next
    frame (any slider value, any [delta]): the spawn loop leaves at most
    [MAX_PARTICLES] = 6000 particles in the collection, never goes past the
    energy-dependent cap, and adds nothing to a collection that already
    holds [MAX_PARTICLES]; the buffers keep their [MAX_PARTICLES * 3] cells;
    and when the frame runs, the draw range is the number of survivors, at
    most [MAX_PARTICLES], and the [k]-th survivor has [k < MAX_PARTICLES] and
    is found in the three cells from offset [k * 3] of both buffers, all
    inside the buffers. *)
Theorem buffer_writes_stay_in_bounds (fs : list Frame) (f : Frame)
    (rng rng' : Rng.t) :
  let s := fst (frames fs initialScene rng) in
  let e := energyPercent f / 100.0 in
  let spawned :=
    fst (spawnLoop (Z.to_nat (spawnRate e)) e (liveParticles s) rng') in
  let s' := fst (useFrame f s rng') in
  Z.of_nat MAX_PARTICLES = 6000%Z
  /\ (length spawned <= MAX_PARTICLES)%nat
  /\ (Z.of_nat (length spawned)
      <= Z.max (Z.of_nat (length (liveParticles s))) (particleCap e))%Z
  /\ (length (liveParticles s) = MAX_PARTICLES -> spawned = liveParticles s)
  /\ sceneInvariant s'
  /\ (refsReady f = true ->
      drawRangeCount s' = Some (length (liveParticles s'))
      /\ forall k q, nth_error (liveParticles s') k = Some q ->
           (k < MAX_PARTICLES)%nat
           /\ (k * 3 + 2 < length (positionBuffer s'))%nat
           /\ (k * 3 + 2 < length (colorBuffer s'))%nat
           /\ writtenAt (positionBuffer s') (colorBuffer s') k q).
Proof.
  intros s e spawned s'.
  assert (Hs : sceneInvariant s)
    by (apply frames_keep_invariant; apply initialScene_invariant).
  destruct (spawnLoop3_bounds e (Z.to_nat (spawnRate e)) (liveParticles s) rng')
    as (_ & Hmax & Hcap).
  split; [reflexivity |].
  split; [apply Hmax; apply Hs |].
  split; [exact Hcap |].
  split; [intros Hfull; apply spawnLoop3_full; lia |].
  split; [apply useFrame_keeps_invariant; exact Hs |].
  intros Hr. destruct (useFrame_ready_spec f s rng' Hr Hs) as (_ & Hd & Hw).
  split; assumption.
Qed.

Lemma buffer_writes_stay_in_bounds_witness :
  let rng := Rng.mk (fun _ => 0.5) 0 in
  let f := mkFrame true 50 0.016 1 in
  let s := fst (frames [f] initialScene rng) in
  let s' := fst (useFrame f s rng) in
  drawRangeCount s' = Some (length (liveParticles s'))
  /\ forall k q, nth_error (liveParticles s') k = Some q ->
       (k < MAX_PARTICLES)%nat
       /\ (k * 3 + 2 < length (positionBuffer s'))%nat
       /\ (k * 3 + 2 < length (colorBuffer s'))%nat
       /\ writtenAt (positionBuffer s') (colorBuffer s') k q.
Proof.
  intros rng f.
  destruct (buffer_writes_stay_in_bounds [f] f rng rng)
    as (_ & _ & _ & _ & _ & Hready).
  apply Hready. reflexivity.
Defined.

End Frames3D.

(** * Further properties of the code *)

(** ** The sampler's range *)

Section SamplerRange.

Import Fire2D Gaussian.

Lemma exp_32_bound : 2e12 <= exp 32.
Proof.
  pose proof (exp_ineq1 (/ 4) ltac:(lra)) as H0.
  assert (H1 : 1.5625 <= exp (/ 2)).
  { replace (/ 2) with (/ 4 + / 4) by lra. rewrite exp_plus. nra. }
  assert (H2 : 2.44 <= exp 1).
  { replace 1 with (/ 2 + / 2) by lra. rewrite exp_plus. nra. }
  assert (H3 : 5.95 <= exp 2).
  { replace 2 with (1 + 1) by lra. rewrite exp_plus. nra. }
  assert (H4 : 35.4 <= exp 4).
  { replace 4 with (2 + 2) by lra. rewrite exp_plus. nra. }
  assert (H5 : 1253 <= exp 8).
  { replace 8 with (4 + 4) by lra. rewrite exp_plus. nra. }
  assert (H6 : 1570000 <= exp 16).
  { replace 16 with (8 + 8) by lra. rewrite exp_plus. nra. }
  replace 32 with (16 + 16) by lra. rewrite exp_plus. nra.
Qed.

Lemma ln_clamp_lower_bound : -32 <= ln 1e-12.
Proof.
  replace (-32) with (- (32)) by lra.
  rewrite <- (ln_exp (- (32))). left. apply ln_increasing; [apply exp_pos |].
  rewrite exp_Ropp. pose proof exp_32_bound. pose proof (exp_pos 32).
  apply Rle_lt_trans with (/ 2e12).
  - apply Rinv_le_contravar; lra.
  - lra.
Qed.

Lemma box_muller_radius_bound (u : R) :
  0 <= u < 1 -> 0 <= sqrt (-2.0 * ln (Math_max u 1e-12)) <= 8.
Proof.
  intros Hu. split; [apply sqrt_pos |].
  destruct (clamped_draw_in_unit u Hu) as [Hlo Hhi].
  set (c := Math_max u 1e-12) in *.
  assert (Hln : ln 1e-12 <= ln c).
  { destruct Hlo as [Hlt | Heq]; [left; apply ln_increasing; lra | rewrite Heq; lra]. }
  pose proof ln_clamp_lower_bound.
  rewrite <- (sqrt_square 8) by lra. apply sqrt_le_1_alt. lra.
Qed.

Lemma scaled_sample_bound (radius angle stdDev mean : R) :
  0 <= radius <= 8 ->
  Rabs (radius * cos angle * stdDev + mean - mean) <= 8 * Rabs stdDev.
Proof.
  intros Hr.
  assert (Hc : Rabs (cos angle) <= 1).
  { destruct (COS_bound angle). apply Rabs_le. split; assumption. }
  replace (radius * cos angle * stdDev + mean - mean)
    with (radius * cos angle * stdDev) by ring.
  rewrite !Rabs_mult. rewrite (Rabs_right radius) by lra.
  pose proof (Rabs_pos (cos angle)). pose proof (Rabs_pos stdDev).
  assert (radius * Rabs (cos angle) <= 8) by nra. nra.
Qed.

Lemma gaussianRandom_bound (mean stdDev : R) (s : Rng.t) :
  0 <= tape s (cursor s) < 1 ->
  Rabs (fst (gaussianRandom mean stdDev s) - mean) <= 8 * Rabs stdDev.
Proof.
  intros Hu. unfold gaussianRandom, bind, Math_random, ret. simpl.
  unfold Math_sqrt, Math_log, Math_cos.
  apply scaled_sample_bound. apply box_muller_radius_bound. exact Hu.
Qed.

Lemma gaussianRandom_cursor (mean stdDev : R) (s : Rng.t) :
  snd (gaussianRandom mean stdDev s) = Rng.mk (tape s) (S (S (cursor s))).
Proof. reflexivity. Qed.

(** X1.  Whatever the two draws, the first in [0, 1), the sample of
    [gaussianRandom mean stdDev] is within 8 standard deviations of the
    mean: the clamp of [u1] at [1e-12] bounds the Box-Muller radius. *)
Theorem gaussianRandom_within_eight_deviations (mean stdDev : R)
    (draws : nat -> R) (n : nat) :
  0 <= draws n < 1 ->
  Rabs (fst (gaussianRandom mean stdDev (Rng.mk draws n)) - mean)
  <= 8 * Rabs stdDev.
Proof.
  intros Hu.
  pose proof (box_muller_radius_bound (draws n) Hu) as Hradius.
  unfold gaussianRandom, bind, Math_random, ret.
  cbn [fst snd tape cursor].
  unfold Math_sqrt, Math_log, Math_cos.
  apply scaled_sample_bound. exact Hradius.
Qed.

Lemma gaussianRandom_within_eight_deviations_witness :
  Rabs (fst (gaussianRandom 400 15 (Rng.mk (fun _ => 0.5) 0)) - 400)
  <= 8 * Rabs 15.
Proof.
  apply (gaussianRandom_within_eight_deviations 400 15 (fun _ => 0.5) 0).
  lra.
Defined.

End SamplerRange.

(** ** The 2D factory's ranges *)

Section FactoryRanges2D.

Import Fire2D Gaussian.













End FactoryRanges2D.

(** ** The 2D update of one particle *)

Section Update2D.

Import Fire2D Gaussian.

Lemma updateParticle_flight (W ep : R) (frame : nat) (p : FireParticle)
    (s : Rng.t) :
  let p' := fst (updateParticle W ep frame p s) in
  velocityY p'
  = (velocityY p - 0.09 * (ep / 100)) * (0.96 + ep / 100 * 0.02)
  /\ positionY p' = positionY p + (velocityY p - 0.09 * (ep / 100))
  /\ basePixelRadius p' = basePixelRadius p.
Proof.
  unfold updateParticle, bind, Math_random. simpl.
  destruct (ltb (tape s (cursor s)) 0.02); simpl; auto.
Qed.

Lemma rising_step (ep vy : R) :
  10 <= ep <= 100 -> -6 <= vy < 0 ->
  -6 <= (vy - 0.09 * (ep / 100)) * (0.96 + ep / 100 * 0.02) < 0.
Proof.
  intros Hep Hvy.
  set (e := ep / 100). assert (He : 0.1 <= e <= 1) by (unfold e; lra).
  assert (Hd : 0.962 <= 0.96 + e * 0.02 <= 0.98) by lra.
  assert (Hv : -6 - 0.09 * e <= vy - 0.09 * e < 0) by lra.
  split; [| nra].
  assert ((6 + 0.09 * e) * (0.96 + e * 0.02) <= 6) by nra.
  nra.
Qed.

(** X4.  At a slider value in [10, 100] a particle that moves up at no more
    than 6 pixels per frame still does so after an update, and the update
    moves it up: by more than nothing and by at most 6.09 pixels.  (The
    factory's particles start that way, so no particle ever moves down.) *)
Theorem particle_only_rises (W ep : R) (frame : nat) (p : FireParticle)
    (s : Rng.t) :
  10 <= ep <= 100 -> -6 <= velocityY p < 0 ->
  let p' := fst (updateParticle W ep frame p s) in
  -6 <= velocityY p' < 0
  /\ positionY p - 6.09 <= positionY p' < positionY p.
Proof.
  intros Hep Hvy p'.
  destruct (updateParticle_flight W ep frame p s) as (Hv & Hy & _).
  fold p' in Hv, Hy. rewrite Hv, Hy.
  split; [apply rising_step; assumption | lra].
Qed.

Lemma particle_only_rises_witness :
  let p := mkParticle 400 580 0 (-6) 100 100 1 5 0 false in
  let p' := fst (updateParticle 800 100 0 p (Rng.mk (fun _ => 0.5) 0)) in
  -6 <= velocityY p' < 0
  /\ positionY p - 6.09 <= positionY p' < positionY p.
Proof.
  intros p.
  apply (particle_only_rises 800 100 0 p (Rng.mk (fun _ => 0.5) 0));
    simpl; lra.
Defined.

(** X5.  A particle's energy only lasts so long.  Take a particle whose
    remaining energy is at most its initial energy, and that at most 287.3
    (no initial energy of the factory is higher), at a slider value in
    [10, 100].  After [n] updates with [0.8 * n >= initialEnergy + 0.8], and
    so after 360 updates or more, its remaining energy is negative and it
    fails the test of the filter. *)
Theorem particle_dies_after_its_energy (n : nat) (W ep : R) (frame : nat)
    (p : FireParticle) (s : Rng.t) :
  10 <= ep <= 100 -> energyBounded p -> initialEnergy p <= 287.3 ->
  initialEnergy p + 0.8 <= 0.8 * INR n \/ (360 <= n)%nat ->
  let p' := fst (updateN n W ep frame p s) in
  remainingEnergy p' < 0 /\ onScreen W p' = false.
Proof.
  intros Hep [Hle Hnd] Hmax Hn p'.
  assert (Hrem : remainingEnergy p' < 0).
  { unfold p'. rewrite updateN_remainingEnergy.
    assert (Hloss : 0.8 <= actualEnergyLoss ep p)
      by (apply actualEnergyLoss_lower_bound; [lra | exact Hnd]).
    pose proof (pos_INR n) as Hn0.
    destruct Hn as [Hn | Hn]; [nra |].
    assert (360 <= INR n).
    { replace 360 with (INR 360) by (rewrite INR_IZR_INZ; reflexivity).
      apply le_INR. exact Hn. }
    nra. }
  split; [exact Hrem |].
  destruct (onScreen W p') eqn:Hon; [| reflexivity].
  apply onScreen_true in Hon. lra.
Qed.

Lemma particle_dies_after_its_energy_witness :
  let p := mkParticle 400 580 0 (-6) 287.3 287.3 1 5 0 true in
  let p' := fst (updateN 360 800 100 0 p (Rng.mk (fun _ => 0.5) 0)) in
  remainingEnergy p' < 0 /\ onScreen 800 p' = false.
Proof.
  intros p.
  apply (particle_dies_after_its_energy 360 800 100 0 p
           (Rng.mk (fun _ => 0.5) 0)).
  - lra.
  - unfold energyBounded. simpl. lra.
  - simpl. lra.
  - right. apply le_n.
Defined.

(** X6.  For a particle that has energy left, with [lifeFraction] equal to
    [remainingEnergy / initialEnergy], an update at a slider value of at
    most 100 strictly lowers the life fraction, and the new one is again
    [remainingEnergy / initialEnergy] when the particle still has energy,
    and 0 when it has not. *)
Theorem life_fraction_strictly_decreases (W ep : R) (frame : nat)
    (p : FireParticle) (s : Rng.t) :
  ep <= 100 -> 0 <= normalizedDistanceFromCenter p ->
  0 < remainingEnergy p <= initialEnergy p ->
  lifeFraction p = remainingEnergy p / initialEnergy p ->
  let p' := fst (updateParticle W ep frame p s) in
  lifeFraction p' < lifeFraction p
  /\ (0 < remainingEnergy p' ->
      lifeFraction p' = remainingEnergy p' / initialEnergy p')
  /\ (remainingEnergy p' <= 0 -> lifeFraction p' = 0).
Proof.
  intros Hep Hnd [Hpos Hle] Hlife p'.
  destruct (updateParticle_fields W ep frame p s)
    as (Hrem & Hinit & Hlf & _).
  fold p' in Hrem, Hinit, Hlf.
  pose proof (actualEnergyLoss_lower_bound ep p Hep Hnd) as Hloss.
  assert (Hi : 0 < initialEnergy p) by lra.
  assert (Hinv : 0 < / initialEnergy p) by (apply Rinv_0_lt_compat; exact Hi).
  rewrite Hlf, Hinit, Hlife. unfold lifeFractionOf.
  destruct (Req_dec_T (initialEnergy p) 0) as [Hz | _]; [lra |].
  unfold Math_max, Rdiv.
  assert (Hlt : remainingEnergy p' * / initialEnergy p
                < remainingEnergy p * / initialEnergy p) by nra.
  assert (H0 : 0 < remainingEnergy p * / initialEnergy p) by nra.
  split; [apply Rmax_lub_lt; assumption |]. split.
  - intros Hp'. rewrite Rmax_right; [reflexivity | nra].
  - intros Hp'. rewrite Rmax_left; [reflexivity | nra].
Qed.

Lemma life_fraction_strictly_decreases_witness :
  let p := mkParticle 400 580 0 (-6) 100 100 1 5 0 false in
  let p' := fst (updateParticle 800 100 0 p (Rng.mk (fun _ => 0.5) 0)) in
  lifeFraction p' < lifeFraction p
  /\ (0 < remainingEnergy p' ->
      lifeFraction p' = remainingEnergy p' / initialEnergy p')
  /\ (remainingEnergy p' <= 0 -> lifeFraction p' = 0).
Proof.
  intros p.
  apply (life_fraction_strictly_decreases 800 100 0 p
           (Rng.mk (fun _ => 0.5) 0)); simpl; lra.
Defined.

End Update2D.

(** ** The 2D frame: population and draw calls *)

Section Population2D.

Import Fire2D Gaussian.

Lemma spawnLoop_length_formula (W H ep : R) :
  forall i live s,
    Z.of_nat (length (fst (spawnLoop i W H ep live s)))
    = Z.min (Z.of_nat (length live) + Z.of_nat i)
        (Z.max (Z.of_nat (length live)) (particleCountCap ep)).
Proof.
  intros i. induction i as [| i IH]; intros live s.
  - simpl. lia.
  - rewrite spawnLoop_step.
    destruct (Z.ltb_spec (Z.of_nat (length live)) (particleCountCap ep)).
    + rewrite IH, length_app. simpl. lia.
    + rewrite IH. lia.
Qed.

(** X7.  The spawn loop of a frame brings the collection to
    [min (length + spawnPerFrame, cap)] particles when it starts below the
    cap and leaves it alone otherwise: it stops exactly at the cap and
    never removes anything. *)
Theorem spawn_loop_fills_up_to_cap (W H ep : R) (s : Sim) (rng : Rng.t) :
  let before := Z.of_nat (length (liveParticles s)) in
  let after := Z.of_nat (length (fst (spawnPhase W H ep s rng))) in
  after = Z.min (before + Z.max 0 (spawnPerFrame ep))
            (Z.max before (particleCountCap ep)).
Proof.
  intros before after. unfold after, spawnPhase.
  rewrite spawnLoop_length_formula. fold before. lia.
Qed.

Lemma ticks_population_cap (n : nat) (W H ep : R) (rng : Rng.t) :
  (0 <= particleCountCap ep)%Z ->
  (Z.of_nat (length (liveParticles (fst (ticks n W H ep initialSim rng))))
   <= particleCountCap ep)%Z.
Proof.
  intros Hcap. induction n as [| n IH].
  - simpl. exact Hcap.
  - rewrite ticks_S. simpl.
    set (s' := fst (ticks n W H ep initialSim rng)) in *.
    set (rng' := snd (ticks n W H ep initialSim rng)).
    pose proof (tick_length W H ep s' rng') as Hle.
    pose proof (spawnLoop_length_formula W H ep
                  (Z.to_nat (spawnPerFrame ep)) (liveParticles s') rng')
      as Hsp.
    unfold spawnPhase in Hle. lia.
Qed.

Lemma particleCountCap_on_slider_range (ep : R) :
  10 <= ep <= 100 -> (430 <= particleCountCap ep <= 700)%Z.
Proof.
  intros Hep. unfold particleCountCap.
  assert (30 <= Math_floor (ep * 3) <= 300)%Z
    by (apply Math_floor_range; lra).
  lia.
Qed.

(** X8.  From the empty collection at a slider value in [10, 100], after
    any number of frames the population is at most the cap of that slider
    value, which is at most 700. *)
Theorem population_never_exceeds_cap (n : nat) (W H ep : R) (rng : Rng.t) :
  10 <= ep <= 100 ->
  let population :=
    Z.of_nat (length (liveParticles (fst (ticks n W H ep initialSim rng)))) in
  (population <= particleCountCap ep)%Z /\ (population <= 700)%Z.
Proof.
  intros Hep population.
  pose proof (particleCountCap_on_slider_range ep Hep) as Hcap.
  assert (population <= particleCountCap ep)%Z
    by (apply ticks_population_cap; lia).
  lia.
Qed.

Lemma population_never_exceeds_cap_witness :
  let population :=
    Z.of_nat (length (liveParticles
      (fst (ticks 100 800 600 50 initialSim (Rng.mk (fun _ => 0.5) 0))))) in
  (population <= particleCountCap 50)%Z /\ (population <= 700)%Z.
Proof.
  apply (population_never_exceeds_cap 100 800 600 50
           (Rng.mk (fun _ => 0.5) 0)).
  lra.
Defined.

(** The draw calls of a filter pass are those of the particles it keeps. *)
Lemma updatePhase_draws (W ep : R) (frame : nat) :
  forall ps s,
    snd (fst (updatePhase W ep frame ps s))
    = map (drawParticle ep) (fst (fst (updatePhase W ep frame ps s))).
Proof.
  unfold updatePhase. intros ps. induction ps as [| p rest IH]; intros s.
  - reflexivity.
  - rewrite filterParticles_cons. cbv zeta.
    rewrite stepParticle_verdict. cbn [fst snd].
    destruct (onScreen W (fst (updateParticle W ep frame p s))).
    + cbn [fst snd map]. rewrite IH. reflexivity.
    + apply IH.
Qed.

(** X9.  A frame issues exactly one draw call per particle it keeps, in the
    order of the collection: the disc of the [k]-th survivor, at its
    position, with radius [basePixelRadius * (0.5 + lifeFraction * 0.5)] and
    the colour of [computeParticleColorRGBA]. *)
Theorem frame_draws_its_survivors (W H ep : R) (s : Sim) (rng : Rng.t) :
  let out := fst (tick W H ep s rng) in
  snd out = map (drawParticle ep) (liveParticles (fst out))
  /\ length (snd out) = length (liveParticles (fst out))
  /\ frameIndex (fst out) = S (frameIndex s).
Proof.
  intros out. unfold out. rewrite tick_unfold. cbn [fst snd liveParticles frameIndex].
  rewrite updatePhase_draws. rewrite length_map. auto.
Qed.








End Population2D.

(** ** Colour channels against energy *)

Section ColourEnergy.

(** X11.  The blue channel of the 2D mapper never drops when the slider goes
    up, for any two slider values and any particles: a hotter flame is never
    less blue. *)
Theorem blue_channel_monotone_in_energy (p q : Fire2D.FireParticle)
    (e1 e2 : R) :
  e1 <= e2 ->
  (Fire2D.blue (Fire2D.computeParticleColorRGBA p e1)
   <= Fire2D.blue (Fire2D.computeParticleColorRGBA q e2))%Z.
Proof.
  intros H12. unfold Fire2D.computeParticleColorRGBA.
  destruct (ltb 0.7 (e1 / 100)) eqn:Ha1;
    destruct (ltb 0.4 (e1 / 100)) eqn:Hb1;
    destruct (ltb 0.7 (e2 / 100)) eqn:Ha2;
    destruct (ltb 0.4 (e2 / 100)) eqn:Hb2;
    rewrite ?ltb_true, ?ltb_false in *; cbn [Fire2D.blue];
    try lra; apply Math_floor_le; lra.
Qed.

Lemma blue_channel_monotone_in_energy_witness :
  let p := Fire2D.mkParticle 400 300 0 (-3) 100 50 0.5 5 0 false in
  (Fire2D.blue (Fire2D.computeParticleColorRGBA p 30)
   <= Fire2D.blue (Fire2D.computeParticleColorRGBA p 80))%Z.
Proof.
  intros p. apply (blue_channel_monotone_in_energy p p 30 80). lra.
Defined.

Lemma Math_pow_nonneg_base (x y : R) : 0 <= x -> 0 <= Math_pow x y.
Proof.
  intros Hx. unfold Math_pow. destruct (Rlt_dec 0 x).
  - unfold Rpower. left. apply exp_pos.
  - destruct (Req_dec_T x 0); [| lra]. destruct (Req_dec_T y 0); lra.
Qed.

Lemma baseColor_red_above_green (life : R) :
  0 <= life <= 1 ->
  let '(r, g, b) := Fire3D.baseColor life in g <= r.
Proof.
  intros Hlife. destruct (baseColor_bands life) as (B1 & B2 & B3 & B4).
  destruct (Rlt_dec 0.9 life); [rewrite B1 by lra; lra |].
  destruct (Rlt_dec 0.7 life); [rewrite B2 by lra; lra |].
  destruct (Rlt_dec 0.4 life); [rewrite B3 by lra; lra |].
  rewrite B4 by lra; lra.
Qed.

(** X12.  For a life fraction in [0, 1] and an energy scalar in [0, 1], the
    colour the 3D mapper writes is never greener than it is red, and each
    of its channels is at most the energy brightness
    [0.3 + energyScalar^1.5 * 0.7], itself at most 1: a weaker flame is
    dimmer. *)
Theorem color_3d_warm_and_dimmed (c : THREE.Color) (life e : R) :
  0 <= life <= 1 -> 0 <= e <= 1 ->
  let out := Fire3D.updateParticleColor c life e in
  let energyBrightness := 0.3 + Math_pow e 1.5 * 0.7 in
  THREE.g out <= THREE.r out
  /\ THREE.r out <= energyBrightness
  /\ THREE.g out <= energyBrightness
  /\ THREE.b out <= energyBrightness
  /\ 0.3 <= energyBrightness <= 1.
Proof.
  intros Hlife He. cbv zeta. unfold Fire3D.updateParticleColor.
  pose proof (baseColor_range life Hlife) as Hrange.
  pose proof (baseColor_red_above_green life Hlife) as Hrg.
  destruct (Fire3D.baseColor life) as [[r g] b].
  destruct Hrange as (Hr & Hg & Hb).
  assert (Hramp : 0 <= Math_pow e 1.5 <= 1) by (apply Math_pow_unit; lra).
  assert (Hlb : 0 <= Math_pow life 0.5 <= 1) by (apply Math_pow_unit; lra).
  set (ramp := Math_pow e 1.5) in *. set (lb := Math_pow life 0.5) in *.
  set (h := ramp * 1.5 * life).
  assert (Hh : 0 <= h) by (unfold h; nra).
  cbn [THREE.setRGB THREE.r THREE.g THREE.b].
  unfold Math_min.
  assert (Hmr : 0 <= Rmin 1.0 (r + h * 0.2) <= 1)
    by (split; [apply Rmin_glb; nra | apply Rle_trans with 1.0; [apply Rmin_l | lra]]).
  assert (Hmg : 0 <= Rmin 1.0 (g + h * 0.2) <= 1)
    by (split; [apply Rmin_glb; nra | apply Rle_trans with 1.0; [apply Rmin_l | lra]]).
  assert (Hmb : 0 <= Rmin 1.0 (b + h * 1.0) <= 1)
    by (split; [apply Rmin_glb; nra | apply Rle_trans with 1.0; [apply Rmin_l | lra]]).
  assert (Hmrg : Rmin 1.0 (g + h * 0.2) <= Rmin 1.0 (r + h * 0.2)).
  { apply Rmin_glb; [apply Rmin_l |].
    apply Rle_trans with (g + h * 0.2); [apply Rmin_r | lra]. }
  assert (Heb : 0.3 <= 0.3 + ramp * 0.7 <= 1) by lra.
  assert (Hfb : 0 <= lb * (0.3 + ramp * 0.7) <= 0.3 + ramp * 0.7) by nra.
  repeat split; try lra; nra.
Qed.

Lemma color_3d_warm_and_dimmed_witness :
  let out := Fire3D.updateParticleColor THREE.newColor 0.5 0.5 in
  let energyBrightness := 0.3 + Math_pow 0.5 1.5 * 0.7 in
  THREE.g out <= THREE.r out
  /\ THREE.r out <= energyBrightness
  /\ THREE.g out <= energyBrightness
  /\ THREE.b out <= energyBrightness
  /\ 0.3 <= energyBrightness <= 1.
Proof.
  apply (color_3d_warm_and_dimmed THREE.newColor 0.5 0.5); lra.
Defined.

End ColourEnergy.

(** ** The colour mapper of the 3D library *)

Section LibraryColour.

Import Fire3DLib.


Lemma lifeGradient_bands (life : R) :
  (0.9 < life ->
   lifeGradient life = (1, 0.8 + (life - 0.9) * 2, 0.5 + (life - 0.9) * 5))
  /\ (0.6 < life <= 0.9 ->
      lifeGradient life = (1, life - 0.1, (life - 0.6) * 5 / 3))
  /\ (0.25 < life <= 0.6 ->
      lifeGradient life
      = (0.9 + (life - 0.25) * 2 / 7, 0.2 + (life - 0.25) * 6 / 7, 0))
  /\ (life <= 0.25 ->
      lifeGradient life = (0.4 + life * 2, 0.1 + life * 0.4, 0)).
Proof.
  unfold lifeGradient.
  repeat split; intros H;
    destruct (ltb 0.9 life) eqn:H9;
    destruct (ltb 0.6 life) eqn:H6;
    destruct (ltb 0.25 life) eqn:H2;
    rewrite ?ltb_true, ?ltb_false in *; try lra;
    apply rgb_eq; lra.
Qed.

(** The gradient at [life], as one of its four affine pieces. *)
Lemma lifeGradient_cases (life : R) :
  exists r g b, lifeGradient life = (r, g, b)
    /\ ((0.9 < life /\ r = 1 /\ g = 0.8 + (life - 0.9) * 2
         /\ b = 0.5 + (life - 0.9) * 5)
        \/ (0.6 < life <= 0.9 /\ r = 1 /\ g = life - 0.1
            /\ b = (life - 0.6) * 5 / 3)
        \/ (0.25 < life <= 0.6 /\ r = 0.9 + (life - 0.25) * 2 / 7
            /\ g = 0.2 + (life - 0.25) * 6 / 7 /\ b = 0)
        \/ (life <= 0.25 /\ r = 0.4 + life * 2 /\ g = 0.1 + life * 0.4
            /\ b = 0)).
Proof.
  destruct (lifeGradient_bands life) as (B1 & B2 & B3 & B4).
  destruct (Rlt_dec 0.9 life);
    [eexists _, _, _; split; [apply B1; lra | left; repeat split; lra] |].
  destruct (Rlt_dec 0.6 life);
    [eexists _, _, _; split;
       [apply B2; lra | right; left; repeat split; lra] |].
  destruct (Rlt_dec 0.25 life);
    [eexists _, _, _; split;
       [apply B3; lra | right; right; left; repeat split; lra] |].
  eexists _, _, _; split;
    [apply B4; lra | right; right; right; repeat split; lra].
Qed.

(** X13.  The life gradient of the 3D library mapper never reverses, inside
    a band or from one band to the next: for life fractions
    [0 <= l1 <= l2 <= 1] each of its channels at [l1] is at most the channel
    at [l2]; the channels at [l1] are at least (0.4, 0.1, 0) and those at
    [l2] at most (1, 1, 1). *)
Theorem life_gradient_monotone (l1 l2 : R) :
  0 <= l1 -> l1 <= l2 -> l2 <= 1 ->
  let '(r1, g1, b1) := lifeGradient l1 in
  let '(r2, g2, b2) := lifeGradient l2 in
  (r1 <= r2 /\ g1 <= g2 /\ b1 <= b2)
  /\ (0.4 <= r1 /\ 0.1 <= g1 /\ 0 <= b1)
  /\ (r2 <= 1 /\ g2 <= 1 /\ b2 <= 1).
Proof.
  intros H0 H12 H1.
  destruct (lifeGradient_cases l1) as (r1 & g1 & b1 & E1 & C1).
  destruct (lifeGradient_cases l2) as (r2 & g2 & b2 & E2 & C2).
  rewrite E1, E2.
  destruct C1 as [C1 | [C1 | [C1 | C1]]];
    destruct C2 as [C2 | [C2 | [C2 | C2]]];
    repeat split; lra.
Qed.

Lemma life_gradient_monotone_witness :
  let '(r1, g1, b1) := lifeGradient 0 in
  let '(r2, g2, b2) := lifeGradient 1 in
  (r1 <= r2 /\ g1 <= g2 /\ b1 <= b2)
  /\ (0.4 <= r1 /\ 0.1 <= g1 /\ 0 <= b1)
  /\ (r2 <= 1 /\ g2 <= 1 /\ b2 <= 1).
Proof. apply (life_gradient_monotone 0 1); lra. Defined.

Lemma life_gradient_range_aux (life : R) :
  0 <= life <= 1 ->
  let '(r, g, b) := lifeGradient life in
  0 <= r <= 1 /\ 0 <= g <= 1 /\ 0 <= b <= 1.
Proof.
  intros Hlife.
  destruct (lifeGradient_cases life) as (r & g & b & E & C).
  rewrite E. destruct C as [C | [C | [C | C]]]; lra.
Qed.

Lemma fadeBrightness_range (life : R) : 0 <= fadeBrightness life <= 1.
Proof.
  unfold fadeBrightness, Math_max, Math_min. split; [apply Rmax_l |].
  apply Rmax_lub; [lra | apply Rmin_l].
Qed.

(** X14.  The 3D library mapper reads nothing of the particle but its life
    fraction; for a life fraction in [0, 1] its three channels are not
    negative and never above the channels of the life gradient, which are at
    most 1. *)
Theorem library_color_in_range (p q : FireParticle) :
  lifeFraction p = lifeFraction q -> 0 <= lifeFraction p <= 1 ->
  let out := computeParticleColor p in
  let '(gr, gg, gb) := lifeGradient (lifeFraction p) in
  out = computeParticleColor q
  /\ 0 <= r out <= gr /\ 0 <= g out <= gg /\ 0 <= b out <= gb
  /\ gr <= 1 /\ gg <= 1 /\ gb <= 1.
Proof.
  intros Hpq Hlife. cbv zeta.
  pose proof (life_gradient_range_aux (lifeFraction p) Hlife) as Hrange.
  unfold computeParticleColor. rewrite <- Hpq.
  pose proof (fadeBrightness_range (lifeFraction p)) as Hf.
  destruct (lifeGradient (lifeFraction p)) as [[gr gg] gb].
  destruct Hrange as (Hr & Hg & Hb).
  cbn [r g b].
  split; [reflexivity |].
  repeat split; try lra; nra.
Qed.

Lemma library_color_in_range_witness :
  let p := mkParticle 0 1 0 0 3 0 50 25 0.5 5 0 false in
  let q := mkParticle 1 2 1 0 4 0 80 40 0.5 6 1 true in
  let out := computeParticleColor p in
  let '(gr, gg, gb) := lifeGradient (lifeFraction p) in
  out = computeParticleColor q
  /\ 0 <= r out <= gr /\ 0 <= g out <= gg /\ 0 <= b out <= gb
  /\ gr <= 1 /\ gg <= 1 /\ gb <= 1.
Proof.
  intros p q.
  apply (library_color_in_range p q); simpl; lra.
Defined.

End LibraryColour.

(** ** The 3D frame: particles and buffers *)

Section Particles3D.

Import Fire3D Gaussian.

Lemma gaussianRandom_run (mean stdDev : R) (s : Rng.t) :
  uniform01 (tape s) ->
  exists v s',
    gaussianRandom mean stdDev s = (v, s')
    /\ Rabs (v - mean) <= 8 * Rabs stdDev /\ tape s' = tape s.
Proof.
  intros Hu. exists (fst (gaussianRandom mean stdDev s)),
    (snd (gaussianRandom mean stdDev s)).
  split; [apply surjective_pairing |]. split.
  - apply gaussianRandom_bound. apply Hu.
  - apply keeps_tape_gaussianRandom.
Qed.

(** What the collection needs of a particle of [spawnParticle]. *)
Lemma spawnParticle_life (e : R) (s : Rng.t) :
  0.1 <= e <= 1 -> uniform01 (tape s) ->
  let p := fst (spawnParticle e s) in
  life p = initialLife p /\ 0 <= initialLife p <= 4.2.
Proof.
  intros He Hu. cbv zeta. unfold spawnParticle, bind.
  rewrite Math_pow_square.
  assert (Hrad : 0.3 <= spawnRadius e <= 1.38) by (unfold spawnRadius; lra).
  set (rad := spawnRadius e) in *.
  destruct (gaussianRandom_run 0 (rad * 0.5) s Hu) as (posX & s1 & E1 & _ & T1).
  rewrite E1. rewrite <- T1 in Hu.
  destruct (gaussianRandom_run 0 (rad * 0.5) s1 Hu) as (posZ & s2 & E2 & _ & T2).
  rewrite E2. rewrite <- T2 in Hu.
  destruct (gaussianRandom_run 0 0.2 s2 Hu) as (posY & s3 & E3 & _ & T3).
  rewrite E3. rewrite <- T3 in Hu.
  destruct (gaussianRandom_run 0 0.5 s3 Hu) as (velX & s4 & E4 & _ & T4).
  rewrite E4. rewrite <- T4 in Hu.
  destruct (gaussianRandom_run 0 0.5 s4 Hu) as (velZ & s5 & E5 & _ & T5).
  rewrite E5. rewrite <- T5 in Hu.
  unfold Math_random, ret. cbn [fst snd life initialLife].
  pose proof (Hu (cursor s5)) as Hr.
  set (rLife := tape s5 (cursor s5)) in *.
  assert (Hdist : 0 <= Math_sqrt (posX * posX + posZ * posZ) / rad).
  { apply Rmult_le_pos; [apply sqrt_pos |].
    left. apply Rinv_0_lt_compat. lra. }
  set (dist := Math_sqrt (posX * posX + posZ * posZ) / rad) in *.
  assert (Hbias : 0 <= Math_max 0 (1.0 - dist * 0.5) <= 1).
  { unfold Math_max. split; [apply Rmax_l | apply Rmax_lub; lra]. }
  set (bias := Math_max 0 (1.0 - dist * 0.5)) in *.
  assert (Hbase : 1 <= 1.0 + e * e * 2.5 <= 3.5) by nra.
  assert (0 <= (1.0 + e * e * 2.5) * bias <= 3.5) by nra.
  split; [reflexivity |]. split; nra.
Qed.

(** X15.  For an energy scalar in [0.1, 1] and draws in [0, 1), the factory
    of the 3D component returns a white particle with all its life
    ([life = initialLife], between 0 and 4.2 seconds), an upward velocity
    between 2.1 and 12, sideways velocities of at most 4, and a position
    within 5.52 of the axis in x and in z and within 1.6 of the base in y. *)
Theorem spawnParticle_in_ranges (e : R) (s : Rng.t) :
  0.1 <= e <= 1 -> uniform01 (tape s) ->
  let p := fst (spawnParticle e s) in
  life p = initialLife p
  /\ 0 <= initialLife p <= 4.2
  /\ color p = THREE.newColor
  /\ 2.1 <= THREE.y (velocity p) <= 12
  /\ Rabs (THREE.x (velocity p)) <= 4 /\ Rabs (THREE.z (velocity p)) <= 4
  /\ Rabs (THREE.x (position p)) <= 5.52
  /\ Rabs (THREE.z (position p)) <= 5.52
  /\ Rabs (THREE.y (position p)) <= 1.6.
Proof.
  intros He Hu. cbv zeta. unfold spawnParticle, bind.
  rewrite Math_pow_square.
  assert (Hrad : 0.3 <= spawnRadius e <= 1.38) by (unfold spawnRadius; lra).
  set (rad := spawnRadius e) in *.
  destruct (gaussianRandom_run 0 (rad * 0.5) s Hu) as (posX & s1 & E1 & B1 & T1).
  rewrite E1. rewrite <- T1 in Hu.
  destruct (gaussianRandom_run 0 (rad * 0.5) s1 Hu) as (posZ & s2 & E2 & B2 & T2).
  rewrite E2. rewrite <- T2 in Hu.
  destruct (gaussianRandom_run 0 0.2 s2 Hu) as (posY & s3 & E3 & B3 & T3).
  rewrite E3. rewrite <- T3 in Hu.
  destruct (gaussianRandom_run 0 0.5 s3 Hu) as (velX & s4 & E4 & B4 & T4).
  rewrite E4. rewrite <- T4 in Hu.
  destruct (gaussianRandom_run 0 0.5 s4 Hu) as (velZ & s5 & E5 & B5 & T5).
  rewrite E5. rewrite <- T5 in Hu.
  unfold Math_random, ret.
  cbn [fst snd life initialLife color velocity position THREE.x THREE.y THREE.z].
  pose proof (Hu (cursor s5)) as Hr.
  set (rLife := tape s5 (cursor s5)) in *.
  rewrite Rminus_0_r in B1, B2, B3, B4, B5.
  rewrite (Rabs_right (rad * 0.5)) in B1, B2 by lra.
  rewrite (Rabs_right 0.2) in B3 by lra.
  rewrite (Rabs_right 0.5) in B4, B5 by lra.
  assert (Hdist : 0 <= Math_sqrt (posX * posX + posZ * posZ) / rad).
  { apply Rmult_le_pos; [apply sqrt_pos |].
    left. apply Rinv_0_lt_compat. lra. }
  set (dist := Math_sqrt (posX * posX + posZ * posZ) / rad) in *.
  assert (Hbias : 0 <= Math_max 0 (1.0 - dist * 0.5) <= 1).
  { unfold Math_max. split; [apply Rmax_l | apply Rmax_lub; lra]. }
  set (bias := Math_max 0 (1.0 - dist * 0.5)) in *.
  assert (Hbase : 1 <= 1.0 + e * e * 2.5 <= 3.5) by nra.
  split; [reflexivity |]. split.
  - assert (0 <= (1.0 + e * e * 2.5) * bias <= 3.5) by nra.
    split; nra.
  - split; [reflexivity |]. split; [nra |].
    repeat split; lra.
Qed.

Lemma spawnParticle_in_ranges_witness :
  let p := fst (spawnParticle 0.5 (Rng.mk (fun _ => 0.5) 0)) in
  life p = initialLife p
  /\ 0 <= initialLife p <= 4.2
  /\ color p = THREE.newColor
  /\ 2.1 <= THREE.y (velocity p) <= 12
  /\ Rabs (THREE.x (velocity p)) <= 4 /\ Rabs (THREE.z (velocity p)) <= 4
  /\ Rabs (THREE.x (position p)) <= 5.52
  /\ Rabs (THREE.z (position p)) <= 5.52
  /\ Rabs (THREE.y (position p)) <= 1.6.
Proof.
  apply (spawnParticle_in_ranges 0.5 (Rng.mk (fun _ => 0.5) 0)); [lra |].
  intros k. simpl. lra.
Defined.

Lemma keeps_tape_spawnParticle (e : R) : keeps_tape (spawnParticle e).
Proof. unfold spawnParticle. tape_steps. Qed.

Lemma keeps_tape_spawnLoop3 (e : R) :
  forall i live, keeps_tape (spawnLoop i e live).
Proof.
  intros i. induction i as [| i IH]; intros live s.
  - reflexivity.
  - rewrite spawnLoop3_step.
    destruct ((Z.of_nat (length live) <? particleCap e)%Z
              && (length live <? MAX_PARTICLES)%nat).
    + rewrite IH. apply keeps_tape_spawnParticle.
    + apply IH.
Qed.

Lemma keeps_tape_useFrame (f : Frame) (s : Scene) : keeps_tape (useFrame f s).
Proof.
  intros rng. destruct (refsReady f) eqn:Hr.
  - rewrite useFrame_ready by exact Hr. cbv zeta. cbn [snd].
    apply keeps_tape_spawnLoop3.
  - rewrite useFrame_skipped by exact Hr. reflexivity.
Qed.

Lemma spawnLoop3_Forall (T : (nat -> R) -> Prop) (Q : Particle -> Prop)
    (e : R) :
  (forall s, T (tape s) -> Q (fst (spawnParticle e s))) ->
  forall i live s, T (tape s) -> Forall Q live ->
    Forall Q (fst (spawnLoop i e live s)).
Proof.
  intros Hnew i. induction i as [| i IH]; intros live s HT HQ.
  - exact HQ.
  - rewrite spawnLoop3_step.
    destruct ((Z.of_nat (length live) <? particleCap e)%Z
              && (length live <? MAX_PARTICLES)%nat).
    + apply IH.
      * rewrite keeps_tape_spawnParticle. exact HT.
      * apply Forall_app. split; [exact HQ |].
        constructor; [apply Hnew; exact HT | constructor].
    + apply IH; assumption.
Qed.

Lemma filterParticles3_Forall (e ramp dt time : R) (Q P : Particle -> Prop) :
  (forall p bufs p' bufs',
     Q p -> stepParticle e ramp dt time p bufs = Some (p', bufs') -> P p') ->
  forall ps bufs, Forall Q ps ->
    Forall P (fst (filterParticles e ramp dt time ps bufs)).
Proof.
  intros Hstep ps. induction ps as [| p rest IH]; intros bufs HQ.
  - constructor.
  - inversion HQ as [| ? ? Hp Hrest]; subst. cbn [filterParticles].
    destruct (stepParticle e ramp dt time p bufs) as [[p' bufs'] |] eqn:Hs.
    + specialize (IH bufs' Hrest).
      destruct (filterParticles e ramp dt time rest bufs') as [kept bufs''].
      cbn [fst] in *. constructor; [| exact IH].
      exact (Hstep p bufs p' bufs' Hp Hs).
    + apply IH. exact Hrest.
Qed.

Lemma survivor3_alive (e ramp dt time : R) (p p' : Particle)
    (bufs bufs' : Buffers) :
  0 <= dt -> 0 <= e <= 1 ->
  life p <= initialLife p -> initialLife p <= 4.2 ->
  stepParticle e ramp dt time p bufs = Some (p', bufs') ->
  aliveInvariant p' /\ life p' = life p - dt
  /\ initialLife p' = initialLife p.
Proof.
  intros Hdt He Hle Hmax. unfold stepParticle.
  destruct (leb (life p - dt) 0) eqn:Hdead; [discriminate |].
  apply leb_false in Hdead. intros Heq. injection Heq as <- _.
  cbn [life initialLife color applyPhysics].
  assert (Hi : 0 < initialLife p) by lra.
  assert (Hlf : 0 <= Math_max 0 ((life p - dt) / initialLife p) <= 1).
  { unfold Math_max. split; [apply Rmax_l |]. apply Rmax_lub; [lra |].
    apply Rmult_le_reg_r with (initialLife p); [assumption |].
    unfold Rdiv. rewrite Rmult_assoc, Rinv_l by lra. lra. }
  pose proof (updateParticleColor_range (color p)
                (Math_max 0 ((life p - dt) / initialLife p)) e Hlf He)
    as Hc.
  cbv zeta in Hc. unfold aliveInvariant. cbn [life initialLife color].
  split; [| split; reflexivity].
  split; [lra |]. split; [exact Hmax |]. exact Hc.
Qed.

Lemma useFrame_alive (f : Frame) (s : Scene) (rng : Rng.t) :
  hostFrame f -> uniform01 (tape rng) ->
  Forall aliveInvariant (liveParticles s) ->
  Forall aliveInvariant (liveParticles (fst (useFrame f s rng))).
Proof.
  intros [Hdt Hep] Hu Hs. destruct (refsReady f) eqn:Hr.
  - rewrite useFrame_ready by exact Hr. cbv zeta. cbn [fst liveParticles].
    apply (filterParticles3_Forall _ _ _ _
             (fun p => life p <= initialLife p /\ initialLife p <= 4.2)).
    + intros p bufs p' bufs' [Hle Hmax] Hstep.
      eapply proj1, survivor3_alive; [| | | | exact Hstep];
        try assumption; lra.
    + apply (spawnLoop3_Forall uniform01).
      * intros s0 Hs0.
        destruct (spawnParticle_life (energyPercent f / 100.0) s0)
          as (Hl & Hi); [lra | exact Hs0 |].
        rewrite Hl. lra.
      * exact Hu.
      * eapply Forall_impl; [| exact Hs].
        intros p ([_ Hle] & Hmax & _). split; assumption.
  - rewrite useFrame_skipped by exact Hr. exact Hs.
Qed.

Lemma frames_alive (fs : list Frame) :
  forall s rng,
    Forall hostFrame fs -> uniform01 (tape rng) ->
    Forall aliveInvariant (liveParticles s) ->
    Forall aliveInvariant (liveParticles (fst (frames fs s rng))).
Proof.
  induction fs as [| f rest IH]; intros s rng Hfs Hu Hs.
  - exact Hs.
  - inversion Hfs as [| ? ? Hf Hrest]; subst.
    cbn [frames]. unfold bind.
    pose proof (useFrame_alive f s rng Hf Hu Hs) as Hs'.
    pose proof (keeps_tape_useFrame f s rng) as Ht.
    destruct (useFrame f s rng) as [s' rng']. cbn [fst snd] in *.
    apply IH; [exact Hrest | rewrite Ht; exact Hu | exact Hs'].
Qed.

(** X16.  After any run of frames the host can deliver (no negative
    [delta], slider in [10, 100]) from the mounted component, with draws in
    [0, 1), every particle of the 3D collection has
    [0 < life <= initialLife <= 4.2], and its colour, as last written by the
    mapper, has all three channels in [0, 1]. *)
Theorem particles_3d_alive_and_coloured (fs : list Frame) (rng : Rng.t) :
  Forall hostFrame fs -> uniform01 (tape rng) ->
  Forall aliveInvariant (liveParticles (fst (frames fs initialScene rng))).
Proof.
  intros Hfs Hu. apply frames_alive; [exact Hfs | exact Hu | constructor].
Qed.

Lemma particles_3d_alive_and_coloured_witness :
  let f := mkFrame true 50 0.016 1 in
  Forall aliveInvariant
    (liveParticles (fst (frames [f; f] initialScene
                           (Rng.mk (fun _ => 0.5) 0)))).
Proof.
  intros f.
  apply (particles_3d_alive_and_coloured [f; f] (Rng.mk (fun _ => 0.5) 0)).
  - repeat constructor; simpl; lra.
  - intros k. simpl. lra.
Defined.

Lemma filterParticles3_tail_untouched (e ramp dt time : R)
    (ps : list Particle) :
  forall bufs j,
    let out := filterParticles e ramp dt time ps bufs in
    ((particleIndex bufs + length (fst out)) * 3 <= j)%nat ->
    nth_error (positions (snd out)) j = nth_error (positions bufs) j
    /\ nth_error (colors (snd out)) j = nth_error (colors bufs) j.
Proof.
  induction ps as [| p rest IH]; intros bufs j out Hj.
  - split; reflexivity.
  - unfold out in *. cbn [filterParticles] in *.
    destruct (stepParticle e ramp dt time p bufs) as [[p' bufs'] |] eqn:Hstep.
    + destruct (stepParticle3_some _ _ _ _ _ _ _ _ Hstep) as (Hidx & Hpos & Hcol).
      specialize (IH bufs' j).
      destruct (filterParticles e ramp dt time rest bufs') as [kept bufs''].
      cbn [fst snd length] in *. rewrite Hidx in IH.
      destruct IH as [IHp IHc]; [lia |].
      rewrite IHp, IHc, Hpos, Hcol.
      rewrite !nth_error_store_other by lia. split; reflexivity.
    + apply IH. exact Hj.
Qed.

(** X17.  A frame that runs writes only the cells of its survivors: every
    cell of the position buffer and of the colour buffer from offset
    [3 * (number of survivors)] on holds what it held before the frame
    (data of earlier frames that the draw range leaves out). *)
Theorem frame_leaves_cells_past_draw_range (f : Frame) (s : Scene)
    (rng : Rng.t) (j : nat) :
  refsReady f = true ->
  let s' := fst (useFrame f s rng) in
  (length (liveParticles s') * 3 <= j)%nat ->
  nth_error (positionBuffer s') j = nth_error (positionBuffer s) j
  /\ nth_error (colorBuffer s') j = nth_error (colorBuffer s) j.
Proof.
  intros Hr s'. unfold s'. rewrite useFrame_ready by exact Hr. cbv zeta.
  cbn [fst liveParticles positionBuffer colorBuffer]. intros Hj.
  apply (filterParticles3_tail_untouched _ _ _ _ _
           (mkBuffers (positionBuffer s) (colorBuffer s) 0) j).
  cbn [particleIndex Nat.add]. exact Hj.
Qed.

Lemma frame_leaves_cells_past_draw_range_witness :
  let f := mkFrame true 50 0.016 1 in
  let rng := Rng.mk (fun _ => 0.5) 0 in
  let s' := fst (useFrame f initialScene rng) in
  let j := (length (liveParticles s') * 3)%nat in
  nth_error (positionBuffer s') j = nth_error (positionBuffer initialScene) j
  /\ nth_error (colorBuffer s') j = nth_error (colorBuffer initialScene) j.
Proof.
  intros f rng s' j.
  apply (frame_leaves_cells_past_draw_range f initialScene rng j).
  - reflexivity.
  - apply le_n.
Defined.

Lemma spawnLoop3_length_formula (e : R) :
  forall i live s,
    Z.of_nat (length (fst (spawnLoop i e live s)))
    = Z.min (Z.of_nat (length live) + Z.of_nat i)
        (Z.max (Z.of_nat (length live))
           (Z.min (particleCap e) (Z.of_nat MAX_PARTICLES))).
Proof.
  intros i. induction i as [| i IH]; intros live s.
  - cbn [spawnLoop]. unfold ret. cbn [fst]. lia.
  - rewrite spawnLoop3_step.
    destruct (Z.ltb_spec (Z.of_nat (length live)) (particleCap e));
      destruct (Nat.ltb_spec (length live) MAX_PARTICLES);
      cbn [andb]; rewrite IH; try rewrite length_app; cbn [length]; lia.
Qed.

(** X18.  The spawn loop of a 3D frame brings the collection to
    [min (length + spawnRate, min (particleCap, MAX_PARTICLES))] particles
    when it starts below both limits and leaves it alone otherwise. *)
Theorem spawn_loop_3d_fills_up_to_limits (e : R) (live : list Particle)
    (rng : Rng.t) :
  let before := Z.of_nat (length live) in
  let after :=
    Z.of_nat (length (fst (spawnLoop (Z.to_nat (spawnRate e)) e live rng))) in
  after = Z.min (before + Z.max 0 (spawnRate e))
            (Z.max before (Z.min (particleCap e) (Z.of_nat MAX_PARTICLES))).
Proof.
  intros before after. unfold after. rewrite spawnLoop3_length_formula.
  fold before. lia.
Qed.

End Particles3D.

(** ** The 3D port of the factory *)

Section PortFactory.

Import Gaussian.




End PortFactory.

(** ** The 3D physics step and the spawn policy *)

Section Physics3D.

Import Fire3D Gaussian.

Lemma vector3_eq (a b : THREE.Vector3) :
  THREE.x a = THREE.x b -> THREE.y a = THREE.y b -> THREE.z a = THREE.z b ->
  a = b.
Proof. destruct a, b. cbn. intros -> -> ->. reflexivity. Qed.

(** X20.  A frame of zero length moves nothing and ages nothing: for
    [delta = 0], the callback keeps every particle that has life left, with
    the position, velocity, life and initial life it had, and drops a
    particle whose life is 0 or less. *)
Theorem zero_length_frame_moves_nothing (e ramp time : R) (p : Particle)
    (bufs : Buffers) :
  (life p <= 0 -> stepParticle e ramp 0 time p bufs = None)
  /\ (0 < life p ->
      exists p' bufs',
        stepParticle e ramp 0 time p bufs = Some (p', bufs')
        /\ position p' = position p /\ velocity p' = velocity p
        /\ life p' = life p /\ initialLife p' = initialLife p).
Proof.
  split.
  - intros Hdead. apply stepParticle3_verdict. lra.
  - intros Hlive. unfold stepParticle.
    assert (Hl : leb (life p - 0) 0 = false) by (apply leb_false; lra).
    rewrite Hl. eexists _, _. split; [reflexivity |].
    cbn [position velocity life initialLife applyPhysics].
    unfold THREE.addScaledVector, THREE.multiplyScalar.
    cbn [THREE.x THREE.y THREE.z].
    repeat split; try (apply vector3_eq; cbn [THREE.x THREE.y THREE.z]); lra.
Qed.

Lemma zero_length_frame_moves_nothing_witness :
  let p := mkParticle (THREE.mkVector3 1 2 3) (THREE.mkVector3 0 5 0) 2 3
             THREE.newColor in
  let bufs := mkBuffers (newFloat32Array 6) (newFloat32Array 6) 0 in
  exists p' bufs',
    stepParticle 0.5 0.25 0 1 p bufs = Some (p', bufs')
    /\ position p' = position p /\ velocity p' = velocity p
    /\ life p' = life p /\ initialLife p' = initialLife p.
Proof.
  intros p bufs.
  destruct (zero_length_frame_moves_nothing 0.5 0.25 1 p bufs) as [_ Hlive].
  apply Hlive. simpl. lra.
Defined.

(** X21.  In the 3D physics step the drag multiplies the velocity by
    [1 - (0.3 + 0.4 e) * delta].  For an energy scalar and ramp in [0, 1]
    and [0 <= delta <= 1] that factor is in [0.3, 1], so a particle that
    rises keeps rising and its height does not drop; for
    [delta > 1 / (0.3 + 0.4 e)] the factor is negative and a rising
    particle is sent downwards. *)
Theorem drag_keeps_direction_for_short_frames (e ramp delta time : R)
    (p : Particle) :
  0 <= e <= 1 -> 0 <= ramp <= 1 -> 0 <= THREE.y (velocity p) ->
  let p' := applyPhysics e ramp delta time p in
  let factor := 1.0 - (0.3 + e * 0.4) * delta in
  (0 <= delta <= 1 ->
   0.3 <= factor <= 1
   /\ 0 <= THREE.y (velocity p')
   /\ THREE.y (position p) <= THREE.y (position p'))
  /\ (1 < (0.3 + e * 0.4) * delta ->
      factor < 0 /\ THREE.y (velocity p') < 0
      /\ THREE.y (position p') < THREE.y (position p)).
Proof.
  intros He Hramp Hvy. cbv zeta. unfold applyPhysics.
  cbn [position velocity]. unfold THREE.addScaledVector, THREE.multiplyScalar.
  cbn [THREE.x THREE.y THREE.z].
  set (vy := THREE.y (velocity p)) in *.
  split.
  - intros Hd.
    assert (Hf : 0.3 <= 1.0 - (0.3 + e * 0.4) * delta <= 1) by nra.
    assert (Hb : 0 <= (0.02 + ramp * 0.1) * delta * 60) by nra.
    assert (Hv : 0 <= (vy + (0.02 + ramp * 0.1) * delta * 60)
                      * (1.0 - (0.3 + e * 0.4) * delta)) by nra.
    split; [exact Hf |]. split; [exact Hv | nra].
  - intros Hd.
    assert (Hdelta : 0 < delta) by nra.
    assert (Hf : 1.0 - (0.3 + e * 0.4) * delta < 0) by lra.
    assert (Hb : 0 < (0.02 + ramp * 0.1) * delta * 60) by nra.
    assert (Hv : (vy + (0.02 + ramp * 0.1) * delta * 60)
                 * (1.0 - (0.3 + e * 0.4) * delta) < 0) by nra.
    split; [exact Hf |]. split; [exact Hv | nra].
Qed.

Lemma drag_keeps_direction_for_short_frames_witness :
  let p := mkParticle (THREE.mkVector3 1 2 3) (THREE.mkVector3 0 5 0) 2 3
             THREE.newColor in
  let p' := applyPhysics 0.5 0.25 0.016 1 p in
  let factor := 1.0 - (0.3 + 0.5 * 0.4) * 0.016 in
  0.3 <= factor <= 1
  /\ 0 <= THREE.y (velocity p')
  /\ THREE.y (position p) <= THREE.y (position p').
Proof.
  intros p.
  destruct (drag_keeps_direction_for_short_frames 0.5 0.25 0.016 1 p)
    as [Hshort _]; [lra | lra | simpl; lra |].
  apply Hshort. lra.
Defined.

(** X22.  On the slider's range [10, 100] the 2D frame spawns between 6 and
    15 particles under a cap between 430 and 700; the 3D frame spawns
    between 12 and 210 under a cap between 555 and 6000, so the
    energy-dependent cap of the 3D variant never exceeds [MAX_PARTICLES],
    the size of its buffers. *)
Theorem spawn_policy_ranges (ep : R) :
  10 <= ep <= 100 ->
  (6 <= Fire2D.spawnPerFrame ep <= 15)%Z
  /\ (430 <= Fire2D.particleCountCap ep <= 700)%Z
  /\ (12 <= spawnRate (ep / 100.0) <= 210)%Z
  /\ (555 <= particleCap (ep / 100.0) <= 6000)%Z
  /\ (particleCap (ep / 100.0) <= Z.of_nat MAX_PARTICLES)%Z.
Proof.
  intros Hep.
  pose proof (particleCountCap_on_slider_range ep Hep) as Hcap.
  unfold Fire2D.spawnPerFrame, spawnRate, particleCap.
  rewrite Math_pow_square.
  assert (Hsq : 0.01 <= ep / 100.0 * (ep / 100.0) <= 1) by nra.
  assert (1 <= Math_floor (ep / 10) <= 10)%Z
    by (apply Math_floor_range; lra).
  assert (2 <= Math_floor (ep / 100.0 * (ep / 100.0) * 200) <= 200)%Z
    by (apply Math_floor_range; lra).
  assert (55 <= Math_floor (ep / 100.0 * (ep / 100.0) * 5500) <= 5500)%Z
    by (apply Math_floor_range; lra).
  assert (Z.of_nat MAX_PARTICLES = 6000%Z) by reflexivity.
  lia.
Qed.

Lemma spawn_policy_ranges_witness :
  (6 <= Fire2D.spawnPerFrame 50 <= 15)%Z
  /\ (430 <= Fire2D.particleCountCap 50 <= 700)%Z
  /\ (12 <= spawnRate (50 / 100.0) <= 210)%Z
  /\ (555 <= particleCap (50 / 100.0) <= 6000)%Z
  /\ (particleCap (50 / 100.0) <= Z.of_nat MAX_PARTICLES)%Z.
Proof. apply (spawn_policy_ranges 50). lra. Defined.

End Physics3D.
